(** * pa-permission-dead-account-remover: the audit and removal passes of main.py

    A shallow embedding of [main.py]: the string operations the placeholder
    check relies on, [os.path.join] and [os.walk] over a tree of directory
    listings, the [pathspec] matcher, and the functions [load_users],
    [load_excludes], [check_permissions], [remove_permissions] and [main]
    written in a small monad that threads the filesystem, collects what the
    program logs and prints, and propagates Python exceptions. *)

From Stdlib Require Import List String Ascii Bool Arith PeanoNat Lia Sorted.
Import ListNotations.
Set Warnings "-register-all".
Local Open Scope string_scope.
Local Open Scope list_scope.

(** ** Python strings

    A [str] is modelled as a [string] whose characters are the code points
    0..255.  On these [str.lower] and [str.isspace] are as written below. *)
Module PyStr.

(** [str.lower] on one code point: A-Z, and the Latin-1 capitals U+00C0 to
    U+00DE without the multiplication sign U+00D7, move up by 32. *)
Definition lower_char (c : ascii) : ascii :=
  let n := nat_of_ascii c in
  if (((65 <=? n) && (n <=? 90)) ||
      ((192 <=? n) && (n <=? 222) && negb (n =? 215)))%nat
  then ascii_of_nat (n + 32)
  else c.

Fixpoint lower (s : string) : string :=
  match s with
  | EmptyString => EmptyString
  | String c t => String (lower_char c) (lower t)
  end.

(** [s.startswith(p)] *)
Fixpoint startswith (p s : string) : bool :=
  match p, s with
  | EmptyString, _ => true
  | String _ _, EmptyString => false
  | String a p', String b s' => Ascii.eqb a b && startswith p' s'
  end.

(** [s.endswith(p)] for a one-character [p]. *)
Fixpoint endswith_char (c : ascii) (s : string) : bool :=
  match s with
  | EmptyString => false
  | String a EmptyString => Ascii.eqb a c
  | String _ t => endswith_char c t
  end.

(** [sub in s]: [sub] occurs in [s] at some offset. *)
Fixpoint contains (sub s : string) : bool :=
  startswith sub s ||
  match s with
  | EmptyString => false
  | String _ t => contains sub t
  end.

(** [c.isspace()] for a code point below 256. *)
Definition isspace (c : ascii) : bool :=
  let n := nat_of_ascii c in
  (((9 <=? n) && (n <=? 13)) || ((28 <=? n) && (n <=? 32)) ||
   (n =? 133) || (n =? 160))%nat.

Fixpoint lstrip (s : string) : string :=
  match s with
  | EmptyString => EmptyString
  | String c t => if isspace c then lstrip t else s
  end.

(** Strips trailing whitespace: a character is kept when it is not a space
    or something remains after it. *)
Fixpoint rstrip (s : string) : string :=
  match s with
  | EmptyString => EmptyString
  | String c t =>
      match rstrip t with
      | EmptyString => if isspace c then EmptyString else String c EmptyString
      | t' => String c t'
      end
  end.

Definition strip (s : string) : string := rstrip (lstrip s).

(** Truth value of a [str]: the empty string is false. *)
Definition truthy (s : string) : bool :=
  match s with EmptyString => false | _ => true end.

End PyStr.

(** ** posixpath.join, for two components *)
Module PosixPath.

Definition sep : ascii := "/"%char.

Definition join (a b : string) : string :=
  if PyStr.startswith (String sep EmptyString) b then b
  else if negb (PyStr.truthy a) || PyStr.endswith_char sep a then a ++ b
  else a ++ String sep b.

End PosixPath.

(** ** The pathspec library

    [pathspec] is a dependency, not part of the repository.  A compiled
    [PathSpec] is its list of patterns; each pattern carries its [include]
    flag ([None] for a comment or blank pattern, [Some false] for a negated
    one) and its compiled regular expression, kept here as a predicate on
    paths that includes the normalisation of the path.  [match_file] is the
    library's loop: the last pattern that matches the file decides. *)
Module Pathspec.

Record Pattern : Type := {
  include : option bool;
  regex_match : string -> bool
}.

Definition PathSpec : Type := list Pattern.

Definition match_step (file : string) (matched : bool) (pattern : Pattern) : bool :=
  match include pattern with
  | Some inc => if regex_match pattern file then inc else matched
  | None => matched
  end.

Definition match_file (spec : PathSpec) (file : string) : bool :=
  fold_left (match_step file) spec false.

(** [PathSpec.__len__] gives the truth value of a spec: empty is false. *)
Definition truthy (spec : PathSpec) : bool :=
  match spec with [] => false | _ => true end.

End Pathspec.

(** ** Exceptions *)
Inductive exn : Type :=
| FileNotFoundError
| OSError                 (* any other OSError; IOError is an alias of OSError *)
| ValueError              (* UnicodeDecodeError, a pattern that does not compile *)
| RuntimeError            (* any other subclass of Exception *)
| KeyboardInterrupt       (* a BaseException that is not an Exception *)
| SystemExit (code : nat). (* raised by sys.exit *)

Definition is_FileNotFoundError (e : exn) : bool :=
  match e with FileNotFoundError => true | _ => false end.

Definition is_IOError (e : exn) : bool :=
  match e with FileNotFoundError | OSError => true | _ => false end.

Definition is_Exception (e : exn) : bool :=
  match e with KeyboardInterrupt | SystemExit _ => false | _ => true end.

(** ** The filesystem

    Modelled from the spec: a Grant is a (principal, permission-kind) pair
    attached to a file entry.  main.py never reads or writes access-control
    metadata; files carry their grants so that the frame properties of the
    two passes can be stated. *)
Inductive permission_kind : Type :=
| Owner | GroupMember | AclRead | AclWrite | AclExecute | AclFull.

Record Grant : Type := {
  principal : string;
  kind : permission_kind
}.

(** An entry of a directory listing.  [File] stands for every entry on which
    [is_dir()] is false.  [DirLink] is a symbolic link to a directory:
    [os.walk] lists it among the directories and does not descend into it.
    [Dir] has its listing in the order [os.scandir] returns it; when
    [listable] is false, [os.scandir] raises an [OSError] on it. *)
Inductive node : Type :=
| File (name : string) (grants : list Grant)
| DirLink (name : string)
| Dir (name : string) (listable : bool) (entries : list node).

(** What [open(path, "r")] followed by iteration over the lines gives. *)
Inductive text_file : Type :=
| Lines (raw : list string)
| Unreadable              (* open raises an OSError other than FileNotFoundError *)
| Undecodable.            (* reading raises UnicodeDecodeError *)

(** [mounts] resolves a path given on the command line to the entry found
    there; [texts] holds the files that can be opened for reading;
    [unwritable] lists the paths that cannot be opened for appending. *)
Record filesys : Type := {
  mounts : list (string * node);
  texts : list (string * text_file);
  unwritable : list string
}.

Fixpoint assoc {A : Type} (k : string) (l : list (string * A)) : option A :=
  match l with
  | [] => None
  | (k', v) :: t => if String.eqb k k' then Some v else assoc k t
  end.

(** ** os.walk, top-down, with the default [onerror] and [followlinks] *)
Definition walk_item : Type := string * list string * list string.

Definition entry_name (n : node) : string :=
  match n with
  | File name _ => name
  | DirLink name => name
  | Dir name _ _ => name
  end.

Definition is_dir (n : node) : bool :=
  match n with File _ _ => false | _ => true end.

Definition dirnames (entries : list node) : list string :=
  map entry_name (filter is_dir entries).

Definition filenames (entries : list node) : list string :=
  map entry_name (filter (fun n => negb (is_dir n)) entries).

(** [walk top n] is [os.walk(top)] when [top] names the entry [n]: nothing
    for an entry that cannot be listed, else the item of [top] followed by
    the walks of its subdirectories, in listing order. *)
Fixpoint walk (top : string) (n : node) {struct n} : list walk_item :=
  match n with
  | Dir _ true entries =>
      (top, dirnames entries, filenames entries) ::
      flat_map (fun c => match c with
                         | Dir name _ _ => walk (PosixPath.join top name) c
                         | _ => []
                         end) entries
  | _ => []
  end.

(** ** What a run leaves behind *)
Inductive level : Type := DEBUG | INFO | WARNING | ERROR | CRITICAL.

Definition level_no (l : level) : nat :=
  match l with
  | DEBUG => 10 | INFO => 20 | WARNING => 30 | ERROR => 40 | CRITICAL => 50
  end.

(** A message is its format string, named by the constructor, together with
    the values substituted into it. *)
Inductive message : Type :=
| LoggingToFile (log_file : string)
| UserFileNotFound (user_file : string)
| ErrorReadingUserFile (user_file : string) (e : exn)
| ExcludeFileNotFound (exclude_file : string)
| ErrorReadingExcludeFile (exclude_file : string) (e : exn)
| LoadedUsers (user_file : string) (users : list string)
| LoadedExcludes (exclude_file : string)
| SkippingExcluded (filepath : string)
| UsersFound (filepath : string)
| ErrorChecking (filepath : string) (e : exn)
| RemovingPermissions (users : list string) (filepath : string)
| ErrorRemoving (filepath : string) (e : exn)
| DirectoryNotFound (directory : string)
| RemovalCompleted
| CheckCompleted.

Inductive console : Type :=
| RedUserFileNotFound
| RedUserFileUnreadable
| RedExcludeFileNotFound
| RedExcludeFileUnreadable
| RedDirectoryNotFound (directory : string)
| YellowRemoving
| GreenRemovalCompleted
| YellowChecking
| RedFilesFollow
| BlueFile (file : string)
| GreenNoFiles
| Plain (m : message).

(** [Logged] is a record that passed the level of the root logger and
    [Printed] a line written to standard output.  The other three are marks
    of the control flow and have no counterpart outside the program:
    [Visit] opens a loop iteration, [Skip] is the [continue] of the
    exclusion test, [Check] the value of the placeholder check. *)
Inductive event : Type :=
| Logged (lvl : level) (m : message)
| Printed (c : console)
| Visit (filepath : string)
| Skip (filepath : string)
| Check (filepath : string) (hit : bool).

(** ** The monad of the program: filesystem in and out, events, exceptions *)
Record outcome (A : Type) : Type := Outcome {
  out_fs : filesys;
  out_trace : list event;
  out_val : A + exn
}.
Arguments Outcome {A} _ _ _.
Arguments out_fs {A} _.
Arguments out_trace {A} _.
Arguments out_val {A} _.

Definition M (A : Type) : Type := filesys -> outcome A.

Definition ret {A : Type} (a : A) : M A :=
  fun fs => Outcome fs [] (inl a).

Definition raise {A : Type} (e : exn) : M A :=
  fun fs => Outcome fs [] (inr e).

Definition bind {A B : Type} (m : M A) (k : A -> M B) : M B :=
  fun fs =>
    let o := m fs in
    match out_val o with
    | inl a =>
        let o' := k a (out_fs o) in
        Outcome (out_fs o') (out_trace o ++ out_trace o') (out_val o')
    | inr e => Outcome (out_fs o) (out_trace o) (inr e)
    end.

(** [try: m  except <class> as e: handler e] *)
Definition try_except {A : Type} (m : M A) (class : exn -> bool) (handler : exn -> M A) : M A :=
  fun fs =>
    let o := m fs in
    match out_val o with
    | inl _ => o
    | inr e =>
        if class e then
          let o' := handler e (out_fs o) in
          Outcome (out_fs o') (out_trace o ++ out_trace o') (out_val o')
        else o
    end.

Definition emit (ev : event) : M unit :=
  fun fs => Outcome fs [ev] (inl tt).

Definition get_fs : M filesys :=
  fun fs => Outcome fs [] (inl fs).

Declare Scope prog_scope.
Delimit Scope prog_scope with prog.
Notation "x <- m ;; k" := (bind m (fun x => k))
  (at level 61, m at next level, right associativity) : prog_scope.
Notation "m ;; k" := (bind m (fun _ => k))
  (at level 61, right associativity) : prog_scope.
Local Open Scope prog_scope.

(** A [for] loop over a list that updates a local value. *)
Fixpoint for_each {A S : Type} (l : list A) (body : S -> A -> M S) (s : S) : M S :=
  match l with
  | [] => ret s
  | x :: t => s' <- body s x ;; for_each t body s'
  end.

(** ** The logging module as main.py configures it

    [logging.basicConfig(level=logging.INFO)] sets the level of the root
    logger; a record below it is dropped before it reaches any handler, the
    file handler of [--log-file] included. *)
Definition root_level : level := INFO.

Definition logging (lvl : level) (m : message) : M unit :=
  if Nat.leb (level_no root_level) (level_no lvl) then emit (Logged lvl m) else ret tt.

(** [rich.print] of a message whose markup is fixed in the source.  The
    messages that interpolate a path go through [rprint_with] below. *)
Definition rprint (c : console) : M unit := emit (Printed c).

Definition print (m : message) : M unit := emit (Printed (Plain m)).

Definition sys_exit {A : Type} (code : nat) : M A := raise (SystemExit code).

(** ** Reading the filesystem *)
(** [os.path.isdir] and [os.walk] follow a symbolic link given as root: a
    mount is read as the entry the path resolves to, so a [DirLink] there is
    outside the model, and the statements about a root that is not a
    directory are made with [not_a_directory] below. *)
Definition isdir (fs : filesys) (path : string) : bool :=
  match assoc path (mounts fs) with
  | Some (Dir _ _ _) => true
  | _ => false
  end.

Definition not_a_directory (fs : filesys) (path : string) : bool :=
  match assoc path (mounts fs) with
  | None => true
  | Some (File _ _) => true
  | _ => false
  end.

Definition walk_items (fs : filesys) (top : string) : list walk_item :=
  match assoc top (mounts fs) with
  | Some n => walk top n
  | None => []
  end.

Definition os_path_isdir (path : string) : M bool :=
  fs <- get_fs ;;
  ret (isdir fs path).

Definition os_walk (top : string) : M (list walk_item) :=
  fs <- get_fs ;;
  ret (walk_items fs top).

(** [with open(path, "r") as f: [line for line in f]] *)
Definition read_lines (path : string) : M (list string) :=
  fs <- get_fs ;;
  match assoc path (texts fs) with
  | None => raise FileNotFoundError
  | Some Unreadable => raise OSError
  | Some Undecodable => raise ValueError
  | Some (Lines raw) => ret raw
  end.

(** [[line.strip() for line in f if line.strip()]] *)
Definition stripped_lines (raw : list string) : list string :=
  map PyStr.strip (filter (fun line => PyStr.truthy (PyStr.strip line)) raw).

(** ** main.py *)
Record args : Type := {
  arg_directory : string;
  arg_users : string;
  arg_remove : bool;
  arg_log_file : option string;
  arg_exclude : option string
}.

(** Truth value of an optional command-line string: [None] and the empty
    string are false. *)
Definition given (o : option string) : option string :=
  match o with
  | Some s => if PyStr.truthy s then Some s else None
  | None => None
  end.

(** [exclude_spec and exclude_spec.match_file(filepath)] *)
Definition excluded (exclude_spec : option Pathspec.PathSpec) (filepath : string) : bool :=
  match exclude_spec with
  | Some spec => Pathspec.truthy spec && Pathspec.match_file spec filepath
  | None => false
  end.

(** [any(user.lower() in filepath.lower() for user in users)] *)
Definition placeholder_check (users : list string) (filepath : string) : bool :=
  existsb (fun user => PyStr.contains (PyStr.lower user) (PyStr.lower filepath)) users.

(** The two messages of [main] that interpolate a path into rich markup:
    "[blue]{file}[/blue]" and
    "[red]Error: Directory not found: {directory}[/red]". *)
Inductive markup_template : Type := InBlue | InRedDirectoryNotFound.

Section Program.

(** The two parts of the environment the program depends on beyond the
    filesystem.  [from_lines] is [pathspec.PathSpec.from_lines] for
    "gitwildmatch", which raises on a pattern that does not compile.
    [fault] says on which paths the body of the per-file [try] raises, and
    what: on strings the placeholder check itself cannot fail, so the
    [except] clauses are reached only through the environment.  The
    exception is raised where the check is evaluated. *)
Variable from_lines : list string -> Pathspec.PathSpec + exn.
Variable fault : string -> option exn.

(** [rich] is what [rich.print] makes of a text interpolated into one of the
    two templates: the text it writes in place of it, or the exception it
    raises.  The library reads the interpolated text as markup too, so a
    path with square brackets may be written differently, or raise a
    MarkupError. *)
Variable rich : markup_template -> string -> string + exn.

Definition rprint_with (t : markup_template) (text : string) : M unit :=
  match rich t text with
  | inl shown =>
      emit (Printed match t with
                    | InBlue => BlueFile shown
                    | InRedDirectoryNotFound => RedDirectoryNotFound shown
                    end)
  | inr e => raise e
  end.

Definition load_users (user_file : string) : M (list string) :=
  try_except
    (raw <- read_lines user_file ;;
     ret (stripped_lines raw))
    is_IOError
    (fun e =>
       if is_FileNotFoundError e
       then logging ERROR (UserFileNotFound user_file) ;; raise e
       else logging ERROR (ErrorReadingUserFile user_file e) ;; raise e).

Definition load_excludes (exclude_file : string) : M Pathspec.PathSpec :=
  try_except
    (raw <- read_lines exclude_file ;;
     match from_lines (stripped_lines raw) with
     | inl spec => ret spec
     | inr e => raise e
     end)
    is_IOError
    (fun e =>
       if is_FileNotFoundError e
       then logging ERROR (ExcludeFileNotFound exclude_file) ;; raise e
       else logging ERROR (ErrorReadingExcludeFile exclude_file e) ;; raise e).

(** The placeholder check on one path, where the environment may raise. *)
Definition evaluate_check (users : list string) (filepath : string) : M bool :=
  match fault filepath with
  | Some e => raise e
  | None =>
      let hit := placeholder_check users filepath in
      emit (Check filepath hit) ;; ret hit
  end.

(** The body of the inner loop of [check_permissions], from the exclusion
    test on. *)
Definition check_file (users : list string) (exclude_spec : option Pathspec.PathSpec)
    (files_with_permissions : list string) (filepath : string) : M (list string) :=
  emit (Visit filepath) ;;
  if excluded exclude_spec filepath then
    logging DEBUG (SkippingExcluded filepath) ;;
    emit (Skip filepath) ;;
    ret files_with_permissions
  else
    try_except
      (has_permissions <- evaluate_check users filepath ;;
       if has_permissions : bool then
         logging INFO (UsersFound filepath) ;;
         ret (files_with_permissions ++ [filepath])
       else ret files_with_permissions)
      is_Exception
      (fun e =>
         logging ERROR (ErrorChecking filepath e) ;;
         ret files_with_permissions).

Definition check_permissions (directory : string) (users : list string)
    (exclude_spec : option Pathspec.PathSpec) : M (list string) :=
  items <- os_walk directory ;;
  for_each items
    (fun files_with_permissions (item : walk_item) =>
       let '(root, _, files) := item in
       for_each files
         (fun files_with_permissions file =>
            check_file users exclude_spec files_with_permissions (PosixPath.join root file))
         files_with_permissions)
    [].

(** The body of the inner loop of [remove_permissions]. *)
Definition remove_file (users : list string) (exclude_spec : option Pathspec.PathSpec)
    (_ : unit) (filepath : string) : M unit :=
  emit (Visit filepath) ;;
  if excluded exclude_spec filepath then
    logging DEBUG (SkippingExcluded filepath) ;;
    emit (Skip filepath) ;;
    ret tt
  else
    try_except
      (hit <- evaluate_check users filepath ;;
       if hit : bool then
         print (RemovingPermissions users filepath) ;;
         logging INFO (RemovingPermissions users filepath)
       else ret tt)
      is_Exception
      (fun e => logging ERROR (ErrorRemoving filepath e)).

Definition remove_permissions (directory : string) (users : list string)
    (exclude_spec : option Pathspec.PathSpec) : M unit :=
  items <- os_walk directory ;;
  for_each items
    (fun u (item : walk_item) =>
       let '(root, _, files) := item in
       for_each files
         (fun u file => remove_file users exclude_spec u (PosixPath.join root file))
         u)
    tt.

(** [logging.FileHandler(path)] opens the file for appending.  Only whether
    the file can be opened is modelled: that the handler creates the file
    and that later records are appended to it is not, so what is said of
    the filesystem after [main], and of what [main] reads from it, is said
    of runs without [--log-file]. *)
Definition add_file_handler (log_file : string) : M unit :=
  fs <- get_fs ;;
  if existsb (String.eqb log_file) (unwritable fs) then raise OSError else ret tt.

Definition main (a : args) : M unit :=
  match given (arg_log_file a) with
  | Some log_file =>
      add_file_handler log_file ;;
      logging INFO (LoggingToFile log_file)
  | None => ret tt
  end ;;
  users <- try_except
             (users <- load_users (arg_users a) ;;
              logging INFO (LoadedUsers (arg_users a) users) ;;
              ret users)
             is_IOError
             (fun e =>
                if is_FileNotFoundError e
                then rprint RedUserFileNotFound ;; sys_exit 1
                else rprint RedUserFileUnreadable ;; sys_exit 1) ;;
  exclude_spec <- match given (arg_exclude a) with
                  | Some exclude_file =>
                      try_except
                        (spec <- load_excludes exclude_file ;;
                         logging INFO (LoadedExcludes exclude_file) ;;
                         ret (Some spec))
                        is_IOError
                        (fun e =>
                           if is_FileNotFoundError e
                           then rprint RedExcludeFileNotFound ;; sys_exit 1
                           else rprint RedExcludeFileUnreadable ;; sys_exit 1)
                  | None => ret None
                  end ;;
  isdir <- os_path_isdir (arg_directory a) ;;
  if negb isdir then
    rprint_with InRedDirectoryNotFound (arg_directory a) ;;
    logging ERROR (DirectoryNotFound (arg_directory a)) ;;
    sys_exit 1
  else if arg_remove a then
    rprint YellowRemoving ;;
    remove_permissions (arg_directory a) users exclude_spec ;;
    rprint GreenRemovalCompleted ;;
    logging INFO RemovalCompleted
  else
    rprint YellowChecking ;;
    files_with_permissions <- check_permissions (arg_directory a) users exclude_spec ;;
    match files_with_permissions with
    | _ :: _ =>
        rprint RedFilesFollow ;;
        for_each files_with_permissions (fun _ file => rprint_with InBlue file) tt
    | [] => rprint GreenNoFiles
    end ;;
    logging INFO CheckCompleted.

End Program.

(** ** Reading a run *)

(** The paths for which a loop iteration was started, in order. *)
Fixpoint visited (t : list event) : list string :=
  match t with
  | [] => []
  | Visit p :: t' => p :: visited t'
  | _ :: t' => visited t'
  end.

(** The paths skipped by the exclusion test. *)
Fixpoint skipped (t : list event) : list string :=
  match t with
  | [] => []
  | Skip p :: t' => p :: skipped t'
  | _ :: t' => skipped t'
  end.

(** The paths on which the placeholder check was evaluated. *)
Fixpoint scanned (t : list event) : list string :=
  match t with
  | [] => []
  | Check p _ :: t' => p :: scanned t'
  | _ :: t' => scanned t'
  end.

(** The paths for which [remove_permissions] announced a removal. *)
Fixpoint acted_on (t : list event) : list string :=
  match t with
  | [] => []
  | Printed (Plain (RemovingPermissions _ p)) :: t' => p :: acted_on t'
  | _ :: t' => acted_on t'
  end.

(** What reaches the outside: log records and standard output. *)
Definition observable (ev : event) : bool :=
  match ev with
  | Logged _ _ | Printed _ => true
  | _ => false
  end.

(** All file paths of the walk of [directory], in the order of the walk. *)
Definition item_paths (item : walk_item) : list string :=
  let '(root, _, files) := item in map (PosixPath.join root) files.

Definition walk_files (fs : filesys) (directory : string) : list string :=
  flat_map item_paths (walk_items fs directory).

(** The grants of every file of the walk, keyed by its path. *)
Fixpoint file_grants (top : string) (n : node) {struct n} : list (string * list Grant) :=
  match n with
  | Dir _ true entries =>
      flat_map (fun c => match c with
                         | File name grants => [(PosixPath.join top name, grants)]
                         | Dir name _ _ => file_grants (PosixPath.join top name) c
                         | DirLink _ => []
                         end) entries
  | _ => []
  end.

Definition grants_at (fs : filesys) (directory filepath : string) : list Grant :=
  match assoc directory (mounts fs) with
  | Some n => match assoc filepath (file_grants directory n) with
              | Some g => g
              | None => []
              end
  | None => []
  end.

(** Every exception the environment raises in a per-file [try] is an error,
    that is an instance of [Exception]. *)
Definition errors_only (fault : string -> option exn) : Prop :=
  forall p e, fault p = Some e -> is_Exception e = true.

(** Whether the audit pass reports a path of the walk. *)
Definition selected (fault : string -> option exn) (users : list string)
    (exclude_spec : option Pathspec.PathSpec) (filepath : string) : bool :=
  negb (excluded exclude_spec filepath) &&
  match fault filepath with Some _ => false | None => placeholder_check users filepath end.

(** What each pass leaves in the trace for one path when every exception of
    the environment is an error. *)
Definition audit_trace (fault : string -> option exn) (users : list string)
    (exclude_spec : option Pathspec.PathSpec) (p : string) : list event :=
  Visit p ::
  if excluded exclude_spec p then [Skip p]
  else match fault p with
       | Some e => [Logged ERROR (ErrorChecking p e)]
       | None =>
           if placeholder_check users p
           then [Check p true; Logged INFO (UsersFound p)]
           else [Check p false]
       end.

Definition removal_trace (fault : string -> option exn) (users : list string)
    (exclude_spec : option Pathspec.PathSpec) (p : string) : list event :=
  Visit p ::
  if excluded exclude_spec p then [Skip p]
  else match fault p with
       | Some e => [Logged ERROR (ErrorRemoving p e)]
       | None =>
           if placeholder_check users p
           then [Check p true;
                 Printed (Plain (RemovingPermissions users p));
                 Logged INFO (RemovingPermissions users p)]
           else [Check p false]
       end.

(** A computation that hands the filesystem on as it found it. *)
Definition preserves {A : Type} (m : M A) : Prop :=
  forall fs, out_fs (m fs) = fs.

(** [reaches top n dpath dentries]: walking down from the entry [n] at path
    [top] through listable directories arrives at a listable directory
    whose path is [dpath] and whose listing is [dentries]. *)
Inductive reaches : string -> node -> string -> list node -> Prop :=
| reaches_here : forall top name entries,
    reaches top (Dir name true entries) top entries
| reaches_below : forall top name entries cname clistable centries dpath dentries,
    In (Dir cname clistable centries) entries ->
    reaches (PosixPath.join top cname) (Dir cname clistable centries) dpath dentries ->
    reaches top (Dir name true entries) dpath dentries.

(** The setup errors of [main]: a file that cannot be read as lines, and a
    root that does not exist or is not a directory. *)
Definition readable_text (fs : filesys) (path : string) : bool :=
  match assoc path (texts fs) with
  | Some (Lines _) => true
  | _ => false
  end.

Definition setup_error (fs : filesys) (a : args) : bool :=
  negb (readable_text fs (arg_users a)) ||
  match given (arg_exclude a) with
  | Some exclude_file => negb (readable_text fs exclude_file)
  | None => false
  end ||
  not_a_directory fs (arg_directory a).

(** What a caller and the outside see of a run: its value, its log records
    and its output. *)
Definition report {A : Type} (o : outcome A) : (A + exn) * list event :=
  (out_val o, filter observable (out_trace o)).

(** ** The statements of the specification that the code is compared with *)

(** Modelled from the spec: the grants a remediation targets on an entry are
    those whose principal is a revoked identity, compared exactly. *)
Definition targeted (users : list string) (g : Grant) : bool :=
  existsb (String.eqb (principal g)) users.

(** Modelled from the spec: after remediation every file acted on has lost
    exactly its targeted grants. *)
Definition removes_exactly_targeted (fault : string -> option exn) (fs : filesys)
    (directory : string) (users : list string)
    (exclude_spec : option Pathspec.PathSpec) : Prop :=
  let o := remove_permissions fault directory users exclude_spec fs in
  forall p, In p (acted_on (out_trace o)) ->
    grants_at (out_fs o) directory p =
    filter (fun g => negb (targeted users g)) (grants_at fs directory p).

(** Modelled from the spec: an entry is matched only when one of its
    principals is, letter for letter, a revoked identity. *)
Definition matches_only_principals (fault : string -> option exn) (fs : filesys)
    (directory : string) (users : list string)
    (exclude_spec : option Pathspec.PathSpec) : Prop :=
  forall l p,
    out_val (check_permissions fault directory users exclude_spec fs) = inl l ->
    In p l ->
    exists g, In g (grants_at fs directory p) /\ In (principal g) users.


(** Modelled from the spec: names in ascending order. *)
Definition name_sorted (l : list string) : Prop :=
  Sorted (fun a b => String.leb a b = true) l.

(** ** Sample data *)
Definition no_fault : string -> option exn := fun _ => None.

Definition flaky (bad : string) (e : exn) : string -> option exn :=
  fun p => if String.eqb p bad then Some e else None.

Definition alice_owner : Grant := {| principal := "alice"; kind := Owner |}.
Definition bob_read : Grant := {| principal := "bob"; kind := AclRead |}.

(** A pattern whose compiled expression accepts the paths that contain
    [.tmp]. *)
Definition tmp_pattern : Pathspec.Pattern :=
  {| Pathspec.include := Some true;
     Pathspec.regex_match := fun p => PyStr.contains ".tmp" p |}.

Definition sample_from_lines : list string -> Pathspec.PathSpec + exn :=
  fun lines => inl (map (fun _ => tmp_pattern) lines).

Definition sample_entries : list node :=
  [File "b_alice.txt" [alice_owner; bob_read];
   File "a.txt" [bob_read];
   Dir "Malice" true [File "notes.txt" [bob_read]];
   DirLink "lnk";
   Dir "locked" false [File "alice" []];
   File "x.tmp" []].

Definition sample_fs : filesys :=
  {| mounts :=
       [("/srv", Dir "srv" true sample_entries);
        ("/srv/a.txt", File "a.txt" [bob_read])];
     texts :=
       [("users.txt", Lines ["alice"; ""; "  bob  "]);
        ("excludes.txt", Lines ["*.tmp"]);
        ("secret.txt", Unreadable)];
     unwritable := ["/proc/log"] |}.

(** A stand-in for rich that writes a text without square brackets as it
    is and raises on any other. *)
Definition sample_rich : markup_template -> string -> string + exn :=
  fun _ text => if PyStr.contains "[" text then inr RuntimeError else inl text.

Definition sample_args (directory : string) (remove : bool) (exclude : option string) : args :=
  {| arg_directory := directory;
     arg_users := "users.txt";
     arg_remove := remove;
     arg_log_file := None;
     arg_exclude := exclude |}.

(** ** Predicates on computations *)

(** Every event of a computation has the property [P]. *)
Definition traces {A : Type} (P : event -> Prop) (m : M A) : Prop :=
  forall fs, Forall P (out_trace (m fs)).

(** The events of the setup of [main]: log records and [rprint] messages. *)
Definition setup_event (ev : event) : Prop :=
  match ev with
  | Logged _ _ => True
  | Printed (Plain _) => False
  | Printed _ => True
  | _ => False
  end.

Definition aborts {A : Type} (m : M A) (fs : filesys) : Prop :=
  (exists e, out_val (m fs) = inr e) /\
  Forall setup_event (out_trace (m fs)) /\
  out_fs (m fs) = fs.


(** The setup of [main] succeeds: the log file, when given, can be opened,
    the user file and the exclude file, when given, can be read, the
    patterns compile and the root is a directory. *)
Definition run_ready (from_lines : list string -> Pathspec.PathSpec + exn)
    (fs : filesys) (a : args) : bool :=
  match given (arg_log_file a) with
  | Some log_file => negb (existsb (String.eqb log_file) (unwritable fs))
  | None => true
  end &&
  readable_text fs (arg_users a) &&
  match given (arg_exclude a) with
  | Some exclude_file =>
      match assoc exclude_file (texts fs) with
      | Some (Lines raw) =>
          match from_lines (stripped_lines raw) with inl _ => true | inr _ => false end
      | _ => false
      end
  | None => true
  end &&
  isdir fs (arg_directory a).

(** A directory whose listing does not come back in name order. *)
Definition unsorted_fs : filesys :=
  {| mounts := [("/d", Dir "d" true [File "b.txt" []; File "a.txt" []])];
     texts := [];
     unwritable := [] |}.

(** ** Further readers and predicates *)

(** The files that [main] lists in audit mode. *)
Fixpoint listed (t : list event) : list string :=
  match t with
  | [] => []
  | Printed (BlueFile f) :: t' => f :: listed t'
  | _ :: t' => listed t'
  end.

(** An exact run: the value, the whole trace, and the filesystem as found. *)
Definition yields {A : Type} (m : M A) (fs : filesys) (t : list event) (a : A) : Prop :=
  m fs = Outcome fs t (inl a).

(** The name of an entry, as a directory listing gives it, does not begin
    with a slash; [well_named] asks this of an entry and of everything
    below it, [children_well_named] of everything below a root. *)
Fixpoint well_named (n : node) : bool :=
  negb (PyStr.startswith "/" (entry_name n)) &&
  match n with
  | Dir _ _ entries => forallb well_named entries
  | _ => true
  end.

Definition children_well_named (n : node) : bool :=
  match n with
  | Dir _ _ entries => forallb well_named entries
  | _ => true
  end.

(** The log file of [--log-file], when given, can be opened. *)
Definition log_ready (fs : filesys) (a : args) : bool :=
  match given (arg_log_file a) with
  | Some log_file => negb (existsb (String.eqb log_file) (unwritable fs))
  | None => true
  end.

(** What [main] has logged once the file handler is in place. *)
Definition log_events (a : args) : list event :=
  match given (arg_log_file a) with
  | Some log_file => [Logged INFO (LoggingToFile log_file)]
  | None => []
  end.

(** What [main] hands to the passes when its setup succeeds. *)
Definition loaded_users (fs : filesys) (a : args) : list string :=
  match assoc (arg_users a) (texts fs) with
  | Some (Lines raw) => stripped_lines raw
  | _ => []
  end.

Definition loaded_spec (from_lines : list string -> Pathspec.PathSpec + exn)
    (fs : filesys) (a : args) : option Pathspec.PathSpec :=
  match given (arg_exclude a) with
  | Some exclude_file =>
      match assoc exclude_file (texts fs) with
      | Some (Lines raw) =>
          match from_lines (stripped_lines raw) with
          | inl spec => Some spec
          | inr _ => None
          end
      | _ => None
      end
  | None => None
  end.

(** rich writes each of the files as it is. *)
Definition rendered_verbatim (rich : markup_template -> string -> string + exn)
    (files : list string) : Prop :=
  forall file, In file files -> rich InBlue file = inl file.

(** The same command line with and without [--remove]. *)
Definition with_remove (remove : bool) (a : args) : args :=
  {| arg_directory := arg_directory a;
     arg_users := arg_users a;
     arg_remove := remove;
     arg_log_file := arg_log_file a;
     arg_exclude := arg_exclude a |}.

(** The records of a setup that succeeds, and the lines with which [main]
    closes an audit. *)
Definition exclude_events (a : args) : list event :=
  match given (arg_exclude a) with
  | Some exclude_file => [Logged INFO (LoadedExcludes exclude_file)]
  | None => []
  end.

Definition setup_events (fs : filesys) (a : args) : list event :=
  log_events a ++
  [Logged INFO (LoadedUsers (arg_users a) (loaded_users fs a))] ++
  exclude_events a.

Definition listing (files : list string) : list event :=
  match files with
  | [] => [Printed GreenNoFiles]
  | _ :: _ => Printed RedFilesFollow :: map (fun file => Printed (BlueFile file)) files
  end.

(** What the walk can see of an entry: its name and, for a directory that
    can be listed, its entries.  Grants and what lies beneath a directory
    that cannot be listed are left out. *)
Fixpoint skeleton (n : node) : node :=
  match n with
  | File name _ => File name []
  | DirLink name => DirLink name
  | Dir name true entries => Dir name true (map skeleton entries)
  | Dir name false _ => Dir name false []
  end.

Definition mount_skeletons (fs : filesys) : list (string * node) :=
  map (fun m => (fst m, skeleton (snd m))) (mounts fs).

(** A tree that differs from the sample tree in its grants and beneath its
    unlistable directory only. *)
Definition sample_fs_regranted : filesys :=
  {| mounts :=
       [("/srv", Dir "srv" true
          [File "b_alice.txt" [];
           File "a.txt" [alice_owner];
           Dir "Malice" true [File "notes.txt" [alice_owner; bob_read]];
           DirLink "lnk";
           Dir "locked" false [File "alice_too" [alice_owner]; DirLink "alice"];
           File "x.tmp" [bob_read]]);
        ("/srv/a.txt", File "a.txt" [])];
     texts := [];
     unwritable := [] |}.

(** * Properties *)

(** ** The model on small inputs *)
Example lower_mixed : PyStr.lower "Alice_01.TXT" = "alice_01.txt".
Proof. reflexivity. Qed.

Example contains_inside : PyStr.contains "lic" "malice" = true.
Proof. reflexivity. Qed.

Example contains_absent : PyStr.contains "bob" "malice" = false.
Proof. reflexivity. Qed.

Example strip_line : PyStr.strip "  alice  " = "alice".
Proof. reflexivity. Qed.

Example join_plain : PosixPath.join "/srv" "a.txt" = "/srv/a.txt".
Proof. reflexivity. Qed.

Example join_trailing_slash : PosixPath.join "/srv/" "a.txt" = "/srv/a.txt".
Proof. reflexivity. Qed.

Example join_absolute : PosixPath.join "/srv" "/etc/passwd" = "/etc/passwd".
Proof. reflexivity. Qed.

Example walk_sample :
  walk_files sample_fs "/srv" =
  ["/srv/b_alice.txt"; "/srv/a.txt"; "/srv/x.tmp"; "/srv/Malice/notes.txt"].
Proof. reflexivity. Qed.

Example audit_sample :
  out_val (check_permissions no_fault "/srv" ["alice"] (Some [tmp_pattern]) sample_fs) =
  inl ["/srv/b_alice.txt"; "/srv/Malice/notes.txt"].
Proof. reflexivity. Qed.

Example audit_interrupted :
  out_val (check_permissions (flaky "/srv/a.txt" KeyboardInterrupt) "/srv" ["alice"] None
             sample_fs) = inr KeyboardInterrupt.
Proof. reflexivity. Qed.

Example load_users_sample :
  out_val (load_users "users.txt" sample_fs) = inl ["alice"; "bob"].
Proof. reflexivity. Qed.

Example main_audit_sample :
  out_trace (main sample_from_lines no_fault sample_rich (sample_args "/srv" false (Some "excludes.txt"))
               sample_fs) =
  [Logged INFO (LoadedUsers "users.txt" ["alice"; "bob"]);
   Logged INFO (LoadedExcludes "excludes.txt");
   Printed YellowChecking;
   Visit "/srv/b_alice.txt"; Check "/srv/b_alice.txt" true;
   Logged INFO (UsersFound "/srv/b_alice.txt");
   Visit "/srv/a.txt"; Check "/srv/a.txt" false;
   Visit "/srv/x.tmp"; Skip "/srv/x.tmp";
   Visit "/srv/Malice/notes.txt"; Check "/srv/Malice/notes.txt" true;
   Logged INFO (UsersFound "/srv/Malice/notes.txt");
   Printed RedFilesFollow;
   Printed (BlueFile "/srv/b_alice.txt");
   Printed (BlueFile "/srv/Malice/notes.txt");
   Logged INFO CheckCompleted].
Proof. reflexivity. Qed.

(** ** Strings *)
Lemma startswith_app (p t : string) : PyStr.startswith p (p ++ t) = true.
Proof.
  induction p as [|c p IH]; simpl.
  - reflexivity.
  - rewrite Ascii.eqb_refl. exact IH.
Qed.

Lemma startswith_split (p s : string) :
  PyStr.startswith p s = true -> exists t, s = (p ++ t)%string.
Proof.
  revert s. induction p as [|c p IH]; intros s H.
  - exists s. reflexivity.
  - destruct s as [|d s]; simpl in H; [discriminate|].
    apply andb_true_iff in H. destruct H as [Hc Hp].
    apply Ascii.eqb_eq in Hc. subst d.
    destruct (IH s Hp) as [t Ht]. exists t. simpl. now rewrite Ht.
Qed.

Lemma contains_unfold (sub s : string) :
  PyStr.contains sub s =
  PyStr.startswith sub s ||
  match s with EmptyString => false | String _ t => PyStr.contains sub t end.
Proof. destruct s; reflexivity. Qed.

Lemma contains_split (sub s : string) :
  PyStr.contains sub s = true <-> exists pre post, s = (pre ++ sub ++ post)%string.
Proof.
  split.
  - induction s as [|c s IH]; rewrite contains_unfold; intro H;
      apply orb_true_iff in H; destruct H as [H|H].
    + destruct (startswith_split _ _ H) as [t Ht]. now exists EmptyString, t.
    + discriminate.
    + destruct (startswith_split _ _ H) as [t Ht]. now exists EmptyString, t.
    + destruct (IH H) as (pre & post & E). exists (String c pre), post.
      simpl. now rewrite E.
  - intros (pre & post & E). subst s.
    induction pre as [|c pre IH]; rewrite contains_unfold.
    + simpl. now rewrite startswith_app.
    + simpl. rewrite IH. apply orb_true_r.
Qed.

(** ** The matcher *)
Lemma match_file_empty (file : string) : Pathspec.match_file [] file = false.
Proof. reflexivity. Qed.

Lemma match_file_truthy (spec : Pathspec.PathSpec) (file : string) :
  Pathspec.match_file spec file = true -> Pathspec.truthy spec = true.
Proof. destruct spec; [discriminate | reflexivity]. Qed.

Lemma excluded_of_match (spec : Pathspec.PathSpec) (file : string) :
  Pathspec.match_file spec file = true -> excluded (Some spec) file = true.
Proof.
  intro H. unfold excluded. now rewrite (match_file_truthy _ _ H), H.
Qed.

(** ** Lists *)
Lemma flat_map_flat_map {A B C : Type} (f : A -> list B) (g : B -> list C) (l : list A) :
  flat_map g (flat_map f l) = flat_map (fun x => flat_map g (f x)) l.
Proof.
  induction l as [|x l IH]; simpl.
  - reflexivity.
  - now rewrite flat_map_app, IH.
Qed.

Lemma fold_left_select {A : Type} (sel : A -> bool) (l acc : list A) :
  fold_left (fun acc x => if sel x then acc ++ [x] else acc) l acc = acc ++ filter sel l.
Proof.
  revert acc. induction l as [|x l IH]; intro acc; simpl.
  - now rewrite app_nil_r.
  - rewrite IH. destruct (sel x); [now rewrite <- app_assoc | reflexivity].
Qed.

(** ** The monad *)
Lemma bind_assoc {A B C : Type} (m : M A) (k : A -> M B) (h : B -> M C) (fs : filesys) :
  bind (bind m k) h fs = bind m (fun a => bind (k a) h) fs.
Proof.
  unfold bind. destruct (m fs) as [fs1 t1 [a|e]]; simpl; [|reflexivity].
  destruct (k a fs1) as [fs2 t2 [b|e]]; simpl; [|reflexivity].
  destruct (h b fs2) as [fs3 t3 r]; simpl. now rewrite app_assoc.
Qed.

Lemma bind_ext {A B : Type} (m : M A) (k k' : A -> M B) (fs : filesys) :
  (forall a fs', k a fs' = k' a fs') -> bind m k fs = bind m k' fs.
Proof.
  intro H. unfold bind. destruct (m fs) as [fs1 t1 [a|e]]; simpl; [|reflexivity].
  now rewrite H.
Qed.

Lemma bind_ret_l {A B : Type} (a : A) (k : A -> M B) (fs : filesys) :
  bind (ret a) k fs = k a fs.
Proof. unfold bind, ret. simpl. now destruct (k a fs). Qed.

Lemma bind_ret_r {A : Type} (m : M A) (fs : filesys) :
  bind m ret fs = m fs.
Proof.
  unfold bind, ret. destruct (m fs) as [fs1 t1 [a|e]]; simpl; [|reflexivity].
  now rewrite app_nil_r.
Qed.

(** ** Loops *)
Lemma for_each_ext {A S : Type} (l : list A) (body body' : S -> A -> M S) :
  (forall s x fs, body s x fs = body' s x fs) ->
  forall s fs, for_each l body s fs = for_each l body' s fs.
Proof.
  intro H. induction l as [|x l IH]; intros s fs; simpl.
  - reflexivity.
  - unfold bind. rewrite H. destruct (body' s x fs) as [fs1 t1 [s1|e]]; simpl; [|reflexivity].
    now rewrite IH.
Qed.

Lemma for_each_app {A S : Type} (l1 l2 : list A) (body : S -> A -> M S) (s : S) (fs : filesys) :
  for_each (l1 ++ l2) body s fs =
  bind (for_each l1 body s) (fun s' => for_each l2 body s') fs.
Proof.
  revert s fs. induction l1 as [|x l1 IH]; intros s fs; simpl.
  - now rewrite bind_ret_l.
  - rewrite bind_assoc. apply bind_ext. intros; apply IH.
Qed.

Lemma for_each_map {A B S : Type} (f : A -> B) (l : list A) (body : S -> B -> M S)
    (s : S) (fs : filesys) :
  for_each (map f l) body s fs = for_each l (fun s x => body s (f x)) s fs.
Proof.
  revert s fs. induction l as [|x l IH]; intros s fs; simpl.
  - reflexivity.
  - apply bind_ext. intros; apply IH.
Qed.

Lemma for_each_flat_map {A B S : Type} (g : A -> list B) (l : list A)
    (body : S -> B -> M S) (s : S) (fs : filesys) :
  for_each (flat_map g l) body s fs =
  for_each l (fun s x => for_each (g x) body s) s fs.
Proof.
  revert s fs. induction l as [|x l IH]; intros s fs; simpl.
  - reflexivity.
  - rewrite for_each_app. apply bind_ext. intros; apply IH.
Qed.

(** A loop whose body always returns, on an unchanged filesystem, returns
    the fold of its steps and the traces of its iterations in order. *)
Lemma for_each_total {A S : Type} (tr : A -> list event) (step : S -> A -> S)
    (body : S -> A -> M S) (l : list A) :
  (forall s x fs, In x l -> body s x fs = Outcome fs (tr x) (inl (step s x))) ->
  forall s fs, for_each l body s fs = Outcome fs (flat_map tr l) (inl (fold_left step l s)).
Proof.
  induction l as [|x l IH]; intros H s fs; simpl.
  - reflexivity.
  - unfold bind. rewrite H by now left. simpl.
    rewrite IH by (intros; apply H; now right). reflexivity.
Qed.

(** An invariant of the local value and of the trace so far survives a loop
    that returns. *)
Lemma for_each_invariant {A S : Type} (I : S -> list event -> Prop)
    (body : S -> A -> M S) (l : list A) :
  (forall s t x fs s', In x l -> I s t ->
     out_val (body s x fs) = inl s' -> I s' (t ++ out_trace (body s x fs))) ->
  forall s t fs s', I s t ->
    out_val (for_each l body s fs) = inl s' ->
    I s' (t ++ out_trace (for_each l body s fs)).
Proof.
  induction l as [|x l IH]; intros H s t fs s' HI Hv; simpl in *.
  - unfold ret in *. simpl in *. injection Hv as <-. now rewrite app_nil_r.
  - unfold bind in *.
    pose proof (H s t x fs) as Hx.
    destruct (body s x fs) as [fs1 t1 [s1|e]]; simpl in *; [|discriminate].
    rewrite app_assoc. apply IH.
    + intros; eapply H; eauto.
    + apply Hx; auto.
    + exact Hv.
Qed.

(** A property of single events holds of the whole trace of a loop, also of
    one cut short by an exception. *)
Lemma for_each_trace {A S : Type} (P : event -> Prop) (body : S -> A -> M S) (l : list A) :
  (forall s x fs, In x l -> Forall P (out_trace (body s x fs))) ->
  forall s fs, Forall P (out_trace (for_each l body s fs)).
Proof.
  induction l as [|x l IH]; intros H s fs; simpl.
  - constructor.
  - unfold bind.
    pose proof (H s x fs (or_introl eq_refl)) as Hx.
    destruct (body s x fs) as [fs1 t1 [s1|e]]; simpl in *; [|exact Hx].
    apply Forall_app. split; [exact Hx|].
    apply IH. intros; apply H; now right.
Qed.

(** ** Frames *)
Lemma preserves_ret {A : Type} (a : A) : preserves (ret a).
Proof. intro fs. reflexivity. Qed.

Lemma preserves_raise {A : Type} (e : exn) : preserves (@raise A e).
Proof. intro fs. reflexivity. Qed.

Lemma preserves_emit (ev : event) : preserves (emit ev).
Proof. intro fs. reflexivity. Qed.

Lemma preserves_get_fs : preserves get_fs.
Proof. intro fs. reflexivity. Qed.

Lemma preserves_bind {A B : Type} (m : M A) (k : A -> M B) :
  preserves m -> (forall a, preserves (k a)) -> preserves (bind m k).
Proof.
  intros Hm Hk fs. unfold bind. specialize (Hm fs).
  destruct (m fs) as [fs1 t1 [a|e]]; simpl in *; [|exact Hm].
  subst fs1. apply Hk.
Qed.

Lemma preserves_try_except {A : Type} (m : M A) (class : exn -> bool) (handler : exn -> M A) :
  preserves m -> (forall e, preserves (handler e)) -> preserves (try_except m class handler).
Proof.
  intros Hm Hh fs. unfold try_except. specialize (Hm fs).
  destruct (m fs) as [fs1 t1 [a|e]]; simpl in *; [exact Hm|].
  destruct (class e); simpl; [|exact Hm].
  subst fs1. apply Hh.
Qed.

Lemma preserves_logging (lvl : level) (m : message) : preserves (logging lvl m).
Proof.
  unfold logging. destruct (Nat.leb _ _); [apply preserves_emit | apply preserves_ret].
Qed.

Lemma preserves_for_each {A S : Type} (l : list A) (body : S -> A -> M S) :
  (forall s x, preserves (body s x)) -> forall s, preserves (for_each l body s).
Proof.
  intro H. induction l as [|x l IH]; intro s; simpl.
  - apply preserves_ret.
  - apply preserves_bind; [apply H | exact IH].
Qed.

Create HintDb frame.

#[local] Hint Resolve preserves_ret preserves_raise preserves_emit preserves_get_fs
  preserves_logging : frame.

Ltac frame :=
  repeat first
    [ progress intros
    | apply preserves_bind
    | apply preserves_try_except
    | apply preserves_for_each
    | solve [auto with frame]
    | match goal with
      | |- preserves (if ?b then _ else _) => destruct b
      | |- preserves (match ?x with _ => _ end) => destruct x
      | |- preserves (let '(_, _) := ?x in _) => destruct x
      end ].

(** ** Reading traces *)
Lemma visited_app (t1 t2 : list event) : visited (t1 ++ t2) = visited t1 ++ visited t2.
Proof.
  induction t1 as [|ev t1 IH]; simpl; [reflexivity|].
  destruct ev; simpl; now rewrite IH.
Qed.

Lemma skipped_app (t1 t2 : list event) : skipped (t1 ++ t2) = skipped t1 ++ skipped t2.
Proof.
  induction t1 as [|ev t1 IH]; simpl; [reflexivity|].
  destruct ev; simpl; now rewrite IH.
Qed.

Lemma scanned_app (t1 t2 : list event) : scanned (t1 ++ t2) = scanned t1 ++ scanned t2.
Proof.
  induction t1 as [|ev t1 IH]; simpl; [reflexivity|].
  destruct ev; simpl; now rewrite IH.
Qed.

Lemma acted_on_app (t1 t2 : list event) : acted_on (t1 ++ t2) = acted_on t1 ++ acted_on t2.
Proof.
  induction t1 as [|ev t1 IH]; simpl; [reflexivity|].
  destruct ev as [lvl m|c|p|p|p b]; simpl; try now rewrite IH.
  destruct c; simpl; try now rewrite IH.
  destruct m; simpl; now rewrite IH.
Qed.


Lemma skipped_none (t : list event) :
  Forall (fun ev => skipped [ev] = []) t -> skipped t = [].
Proof.
  induction 1 as [|ev t Hev _ IH]; [reflexivity|].
  change (ev :: t) with ([ev] ++ t). now rewrite skipped_app, Hev, IH.
Qed.

Lemma scanned_not_in (p : string) (t : list event) :
  Forall (fun ev => ~ In p (scanned [ev])) t -> ~ In p (scanned t).
Proof.
  induction 1 as [|ev t Hev _ IH]; [intros []|].
  change (ev :: t) with ([ev] ++ t). rewrite scanned_app, in_app_iff. tauto.
Qed.

Lemma acted_on_not_in (p : string) (t : list event) :
  Forall (fun ev => ~ In p (acted_on [ev])) t -> ~ In p (acted_on t).
Proof.
  induction 1 as [|ev t Hev _ IH]; [intros []|].
  change (ev :: t) with ([ev] ++ t). rewrite acted_on_app, in_app_iff. tauto.
Qed.

(** ** The two passes as one loop over the files of the walk *)
Lemma outcome_eta {A : Type} (o : outcome A) :
  Outcome (out_fs o) (out_trace o) (out_val o) = o.
Proof. now destruct o. Qed.

Lemma nested_loops_flat {S : Type} (body : S -> string -> M S) (items : list walk_item)
    (s : S) (fs : filesys) :
  for_each items
    (fun s (item : walk_item) =>
       let '(root, _, files) := item in
       for_each files (fun s file => body s (PosixPath.join root file)) s)
    s fs =
  for_each (flat_map item_paths items) body s fs.
Proof.
  rewrite for_each_flat_map. apply for_each_ext.
  intros s' [[root dirs] files] fs'. unfold item_paths. now rewrite for_each_map.
Qed.

Lemma check_permissions_flat fault directory users exclude_spec fs :
  check_permissions fault directory users exclude_spec fs =
  for_each (walk_files fs directory) (check_file fault users exclude_spec) [] fs.
Proof.
  unfold walk_files. rewrite <- nested_loops_flat.
  unfold check_permissions, os_walk, bind at 1 2, get_fs, ret. simpl.
  apply outcome_eta.
Qed.

Lemma remove_permissions_flat fault directory users exclude_spec fs :
  remove_permissions fault directory users exclude_spec fs =
  for_each (walk_files fs directory) (remove_file fault users exclude_spec) tt fs.
Proof.
  unfold walk_files. rewrite <- nested_loops_flat.
  unfold remove_permissions, os_walk, bind at 1 2, get_fs, ret. simpl.
  apply outcome_eta.
Qed.

(** ** The passes when every exception of the environment is an error *)
Lemma check_file_total fault users exclude_spec acc p fs :
  errors_only fault ->
  check_file fault users exclude_spec acc p fs =
  Outcome fs (audit_trace fault users exclude_spec p)
    (inl (if selected fault users exclude_spec p then acc ++ [p] else acc)).
Proof.
  intro H. unfold check_file, audit_trace, selected, evaluate_check.
  destruct (excluded exclude_spec p); [reflexivity|].
  destruct (fault p) as [e|] eqn:E.
  - apply H in E. unfold try_except, bind, raise, emit. simpl. now rewrite E.
  - destruct (placeholder_check users p); reflexivity.
Qed.

Lemma remove_file_total fault users exclude_spec u p fs :
  errors_only fault ->
  remove_file fault users exclude_spec u p fs =
  Outcome fs (removal_trace fault users exclude_spec p) (inl tt).
Proof.
  intro H. unfold remove_file, removal_trace, evaluate_check.
  destruct (excluded exclude_spec p); [reflexivity|].
  destruct (fault p) as [e|] eqn:E.
  - apply H in E. unfold try_except, bind, raise, emit. simpl. now rewrite E.
  - destruct (placeholder_check users p); reflexivity.
Qed.

Lemma check_permissions_total fault directory users exclude_spec fs :
  errors_only fault ->
  check_permissions fault directory users exclude_spec fs =
  Outcome fs
    (flat_map (audit_trace fault users exclude_spec) (walk_files fs directory))
    (inl (filter (selected fault users exclude_spec) (walk_files fs directory))).
Proof.
  intro H. rewrite check_permissions_flat.
  rewrite (for_each_total (audit_trace fault users exclude_spec)
             (fun acc p => if selected fault users exclude_spec p then acc ++ [p] else acc)).
  - now rewrite fold_left_select.
  - intros; now apply check_file_total.
Qed.

Lemma remove_permissions_total fault directory users exclude_spec fs :
  errors_only fault ->
  remove_permissions fault directory users exclude_spec fs =
  Outcome fs
    (flat_map (removal_trace fault users exclude_spec) (walk_files fs directory))
    (inl tt).
Proof.
  intro H. rewrite remove_permissions_flat.
  rewrite (for_each_total (removal_trace fault users exclude_spec) (fun _ _ => tt)).
  - now destruct (fold_left _ _ _).
  - intros; now apply remove_file_total.
Qed.

Lemma visited_audit fault users exclude_spec (l : list string) :
  visited (flat_map (audit_trace fault users exclude_spec) l) = l.
Proof.
  induction l as [|p l IH]; simpl; [reflexivity|].
  rewrite visited_app, IH. f_equal.
  destruct (excluded exclude_spec p); [reflexivity|].
  destruct (fault p); [reflexivity|].
  now destruct (placeholder_check users p).
Qed.

Lemma visited_removal fault users exclude_spec (l : list string) :
  visited (flat_map (removal_trace fault users exclude_spec) l) = l.
Proof.
  induction l as [|p l IH]; simpl; [reflexivity|].
  rewrite visited_app, IH. f_equal.
  destruct (excluded exclude_spec p); [reflexivity|].
  destruct (fault p); [reflexivity|].
  now destruct (placeholder_check users p).
Qed.

Lemma acted_on_removal fault users exclude_spec (l : list string) :
  acted_on (flat_map (removal_trace fault users exclude_spec) l) =
  filter (selected fault users exclude_spec) l.
Proof.
  induction l as [|p l IH]; simpl; [reflexivity|].
  rewrite acted_on_app, IH. unfold selected at 2.
  destruct (excluded exclude_spec p); [reflexivity|].
  destruct (fault p); [reflexivity|].
  now destruct (placeholder_check users p).
Qed.

Lemma check_permissions_preserves fault directory users exclude_spec :
  preserves (check_permissions fault directory users exclude_spec).
Proof. unfold check_permissions, os_walk, check_file, evaluate_check. frame. Qed.

Lemma remove_permissions_preserves fault directory users exclude_spec :
  preserves (remove_permissions fault directory users exclude_spec).
Proof. unfold remove_permissions, os_walk, remove_file, evaluate_check, print. frame. Qed.

Lemma load_users_preserves user_file : preserves (load_users user_file).
Proof. unfold load_users, read_lines. frame. Qed.

Lemma load_excludes_preserves from_lines exclude_file :
  preserves (load_excludes from_lines exclude_file).
Proof. unfold load_excludes, read_lines. frame. Qed.

(** ** Properties of every event of a computation *)

Lemma traces_ret {A : Type} (P : event -> Prop) (a : A) : traces P (ret a).
Proof. intro fs. constructor. Qed.

Lemma traces_raise {A : Type} (P : event -> Prop) (e : exn) : traces P (@raise A e).
Proof. intro fs. constructor. Qed.

Lemma traces_get_fs (P : event -> Prop) : traces P get_fs.
Proof. intro fs. constructor. Qed.

Lemma traces_emit (P : event -> Prop) (ev : event) : P ev -> traces P (emit ev).
Proof. intros H fs. simpl. auto. Qed.

Lemma traces_logging (P : event -> Prop) (lvl : level) (m : message) :
  P (Logged lvl m) -> traces P (logging lvl m).
Proof.
  intro H. unfold logging. destruct (Nat.leb _ _); [now apply traces_emit | apply traces_ret].
Qed.

Lemma traces_bind {A B : Type} (P : event -> Prop) (m : M A) (k : A -> M B) :
  traces P m -> (forall a, traces P (k a)) -> traces P (bind m k).
Proof.
  intros Hm Hk fs. unfold bind. specialize (Hm fs).
  destruct (m fs) as [fs1 t1 [a|e]]; simpl in *; [|exact Hm].
  apply Forall_app. split; [exact Hm | apply Hk].
Qed.

Lemma traces_try_except {A : Type} (P : event -> Prop) (m : M A) (class : exn -> bool)
    (handler : exn -> M A) :
  traces P m -> (forall e, traces P (handler e)) -> traces P (try_except m class handler).
Proof.
  intros Hm Hh fs. unfold try_except. specialize (Hm fs).
  destruct (m fs) as [fs1 t1 [a|e]]; simpl in *; [exact Hm|].
  destruct (class e); simpl; [|exact Hm].
  apply Forall_app. split; [exact Hm | apply Hh].
Qed.

Lemma traces_for_each {A S : Type} (P : event -> Prop) (l : list A) (body : S -> A -> M S) :
  (forall s x, traces P (body s x)) -> forall s, traces P (for_each l body s).
Proof.
  intros H s fs. apply for_each_trace. intros; apply H.
Qed.

Ltac traces :=
  repeat first
    [ progress intros
    | apply traces_bind
    | apply traces_try_except
    | apply traces_for_each
    | apply traces_ret
    | apply traces_raise
    | apply traces_get_fs
    | apply traces_logging
    | apply traces_emit
    | match goal with
      | |- traces _ (if ?b then _ else _) => destruct b
      | |- traces _ (match ?x with _ => _ end) => destruct x
      end ].

(** ** What one iteration does, whatever the environment raises *)
Lemma check_file_trace (P : event -> Prop) fault users exclude_spec acc q :
  P (Visit q) ->
  (excluded exclude_spec q = true -> P (Skip q)) ->
  (excluded exclude_spec q = false -> forall b, P (Check q b)) ->
  (forall lvl m, P (Logged lvl m)) ->
  traces P (check_file fault users exclude_spec acc q).
Proof.
  intros Hv Hs Hc Hl. unfold check_file, evaluate_check.
  destruct (excluded exclude_spec q); traces; auto.
Qed.

Lemma remove_file_trace (P : event -> Prop) fault users exclude_spec u q :
  P (Visit q) ->
  (excluded exclude_spec q = true -> P (Skip q)) ->
  (excluded exclude_spec q = false -> forall b, P (Check q b)) ->
  (excluded exclude_spec q = false -> P (Printed (Plain (RemovingPermissions users q)))) ->
  (forall lvl m, P (Logged lvl m)) ->
  traces P (remove_file fault users exclude_spec u q).
Proof.
  intros Hv Hs Hc Hp Hl. unfold remove_file, evaluate_check, print.
  destruct (excluded exclude_spec q); traces; auto.
Qed.

(** A path that the audit appends was not excluded, raised nothing and
    passed the placeholder check; the iteration left exactly three events. *)
Lemma check_file_value fault users exclude_spec acc q fs acc' :
  out_val (check_file fault users exclude_spec acc q fs) = inl acc' ->
  acc' = acc \/
  (acc' = acc ++ [q] /\
   selected fault users exclude_spec q = true /\
   out_trace (check_file fault users exclude_spec acc q fs) =
     [Visit q; Check q true; Logged INFO (UsersFound q)]).
Proof.
  unfold check_file, evaluate_check, selected.
  destruct (excluded exclude_spec q).
  - simpl. intro H. injection H as <-. now left.
  - destruct (fault q) as [e|].
    + unfold try_except, bind, raise, emit. simpl.
      destruct (is_Exception e); simpl; intro H; [|discriminate].
      injection H as <-. now left.
    + destruct (placeholder_check users q); simpl; intro H; injection H as <-.
      * right. auto.
      * now left.
Qed.

(** ** Aborting before the walk *)

Lemma aborts_bind_l {A B : Type} (m : M A) (k : A -> M B) (fs : filesys) :
  aborts m fs -> aborts (bind m k) fs.
Proof.
  unfold aborts, bind. intros ([e He] & Ht & Hf).
  destruct (m fs) as [fs1 t1 r]; simpl in *. subst r. simpl. eauto.
Qed.

Lemma aborts_bind_r {A B : Type} (m : M A) (k : A -> M B) (fs : filesys) :
  traces setup_event m -> preserves m ->
  (forall a, out_val (m fs) = inl a -> aborts (k a) fs) ->
  aborts (bind m k) fs.
Proof.
  unfold aborts, bind. intros Ht Hp Hk. specialize (Ht fs). specialize (Hp fs).
  destruct (m fs) as [fs1 t1 [a|e]]; simpl in *; subst fs1.
  - destruct (Hk a eq_refl) as ([e He] & Ht2 & Hf2).
    repeat split; eauto. apply Forall_app; auto.
  - eauto.
Qed.

Lemma setup_trace_quiet (t : list event) :
  Forall setup_event t -> visited t = [] /\ scanned t = [] /\ acted_on t = [].
Proof.
  induction 1 as [|ev t Hev _ (IH1 & IH2 & IH3)]; [auto|].
  destruct ev as [lvl m|c|p|p|p b]; simpl in *; try tauto.
  destruct c; simpl in *; tauto.
Qed.

Lemma not_a_directory_isdir fs path :
  not_a_directory fs path = true -> isdir fs path = false.
Proof.
  unfold not_a_directory, isdir.
  destruct (assoc path (mounts fs)) as [[name g|name|name l es]|];
    (discriminate || reflexivity).
Qed.

Lemma isdir_false_aborts fault rich a users exclude_spec fs :
  isdir fs (arg_directory a) = false ->
  aborts
    (isdir <- os_path_isdir (arg_directory a) ;;
     if negb isdir then
       rprint_with rich InRedDirectoryNotFound (arg_directory a) ;;
       logging ERROR (DirectoryNotFound (arg_directory a)) ;;
       sys_exit 1
     else if arg_remove a then
       rprint YellowRemoving ;;
       remove_permissions fault (arg_directory a) users exclude_spec ;;
       rprint GreenRemovalCompleted ;;
       logging INFO RemovalCompleted
     else
       rprint YellowChecking ;;
       files_with_permissions <- check_permissions fault (arg_directory a) users exclude_spec ;;
       match files_with_permissions with
       | _ :: _ =>
           rprint RedFilesFollow ;;
           for_each files_with_permissions (fun _ file => rprint_with rich InBlue file) tt
       | [] => rprint GreenNoFiles
       end ;;
       logging INFO CheckCompleted)%prog
    fs.
Proof.
  intro H. unfold aborts, bind at 1, os_path_isdir, bind at 1, get_fs, ret. simpl.
  rewrite H. simpl. unfold rprint_with, bind, emit, raise.
  destruct (rich InRedDirectoryNotFound (arg_directory a)) as [shown|e]; simpl;
    repeat split; eauto; repeat constructor.
Qed.

Lemma users_part_traces a :
  traces setup_event
    (try_except
       (users <- load_users (arg_users a) ;;
        logging INFO (LoadedUsers (arg_users a) users) ;;
        ret users)
       is_IOError
       (fun e =>
          if is_FileNotFoundError e
          then rprint RedUserFileNotFound ;; sys_exit 1
          else rprint RedUserFileUnreadable ;; sys_exit 1))%prog.
Proof.
  unfold load_users, read_lines, sys_exit, rprint. traces; simpl; auto.
Qed.

Lemma users_part_preserves a :
  preserves
    (try_except
       (users <- load_users (arg_users a) ;;
        logging INFO (LoadedUsers (arg_users a) users) ;;
        ret users)
       is_IOError
       (fun e =>
          if is_FileNotFoundError e
          then rprint RedUserFileNotFound ;; sys_exit 1
          else rprint RedUserFileUnreadable ;; sys_exit 1))%prog.
Proof.
  unfold load_users, read_lines, sys_exit, rprint. frame.
Qed.

Lemma users_part_aborts a fs :
  readable_text fs (arg_users a) = false ->
  aborts
    (try_except
       (users <- load_users (arg_users a) ;;
        logging INFO (LoadedUsers (arg_users a) users) ;;
        ret users)
       is_IOError
       (fun e =>
          if is_FileNotFoundError e
          then rprint RedUserFileNotFound ;; sys_exit 1
          else rprint RedUserFileUnreadable ;; sys_exit 1))%prog
    fs.
Proof.
  unfold readable_text. intro H.
  unfold aborts, try_except, load_users, try_except, bind, read_lines, bind, get_fs, ret.
  simpl. destruct (assoc (arg_users a) (texts fs)) as [[raw| |]|]; try discriminate;
    simpl; repeat split; eauto; repeat constructor.
Qed.

Lemma exclude_part_traces from_lines exclude_file :
  traces setup_event
    (try_except
       (spec <- load_excludes from_lines exclude_file ;;
        logging INFO (LoadedExcludes exclude_file) ;;
        ret (Some spec))
       is_IOError
       (fun e =>
          if is_FileNotFoundError e
          then rprint RedExcludeFileNotFound ;; sys_exit 1
          else rprint RedExcludeFileUnreadable ;; sys_exit 1))%prog.
Proof.
  unfold load_excludes, read_lines, sys_exit, rprint. traces; simpl; auto.
Qed.

Lemma exclude_part_preserves from_lines exclude_file :
  preserves
    (try_except
       (spec <- load_excludes from_lines exclude_file ;;
        logging INFO (LoadedExcludes exclude_file) ;;
        ret (Some spec))
       is_IOError
       (fun e =>
          if is_FileNotFoundError e
          then rprint RedExcludeFileNotFound ;; sys_exit 1
          else rprint RedExcludeFileUnreadable ;; sys_exit 1))%prog.
Proof.
  unfold load_excludes, read_lines, sys_exit, rprint. frame.
Qed.

Lemma exclude_part_aborts from_lines exclude_file fs :
  readable_text fs exclude_file = false ->
  aborts
    (try_except
       (spec <- load_excludes from_lines exclude_file ;;
        logging INFO (LoadedExcludes exclude_file) ;;
        ret (Some spec))
       is_IOError
       (fun e =>
          if is_FileNotFoundError e
          then rprint RedExcludeFileNotFound ;; sys_exit 1
          else rprint RedExcludeFileUnreadable ;; sys_exit 1))%prog
    fs.
Proof.
  unfold readable_text. intro H.
  unfold aborts, try_except, load_excludes, try_except, bind, read_lines, bind, get_fs, ret.
  simpl. destruct (assoc exclude_file (texts fs)) as [[raw| |]|]; try discriminate;
    simpl; repeat split; eauto; repeat constructor.
Qed.

Lemma log_part_traces a :
  traces setup_event
    match given (arg_log_file a) with
    | Some log_file => add_file_handler log_file ;; logging INFO (LoggingToFile log_file)
    | None => ret tt
    end%prog.
Proof. unfold add_file_handler. traces; simpl; auto. Qed.

Lemma log_part_preserves a :
  preserves
    match given (arg_log_file a) with
    | Some log_file => add_file_handler log_file ;; logging INFO (LoggingToFile log_file)
    | None => ret tt
    end%prog.
Proof. unfold add_file_handler. frame. Qed.

(** A setup error ends [main] with an exception before either pass starts:
    the trace holds only log records and the messages of [rprint], and the
    filesystem is as before. *)
Lemma main_setup_error_aborts from_lines fault rich a fs :
  setup_error fs a = true -> aborts (main from_lines fault rich a) fs.
Proof.
  intro H. unfold setup_error in H. unfold main.
  apply aborts_bind_r; [apply log_part_traces | apply log_part_preserves |].
  intros _ _.
  destruct (readable_text fs (arg_users a)) eqn:Hu;
    [|apply aborts_bind_l; now apply users_part_aborts].
  apply aborts_bind_r; [apply users_part_traces | apply users_part_preserves |].
  intros users _. simpl in H.
  destruct (given (arg_exclude a)) as [exclude_file|].
  - destruct (readable_text fs exclude_file) eqn:Hx;
      [|apply aborts_bind_l; now apply exclude_part_aborts].
    apply aborts_bind_r; [apply exclude_part_traces | apply exclude_part_preserves |].
    intros spec _. apply isdir_false_aborts.
    simpl in H. now apply not_a_directory_isdir.
  - apply aborts_bind_r; [apply traces_ret | apply preserves_ret |].
    intros spec _. apply isdir_false_aborts.
    simpl in H. now apply not_a_directory_isdir.
Qed.

(** ** The passes as a whole, whatever the environment raises *)
Lemma check_permissions_trace (P : event -> Prop) fault directory users exclude_spec fs :
  (forall q, In q (walk_files fs directory) ->
     P (Visit q) /\
     (excluded exclude_spec q = true -> P (Skip q)) /\
     (excluded exclude_spec q = false -> forall b, P (Check q b))) ->
  (forall lvl m, P (Logged lvl m)) ->
  Forall P (out_trace (check_permissions fault directory users exclude_spec fs)).
Proof.
  intros H Hl. rewrite check_permissions_flat. apply for_each_trace.
  intros acc q fs' Hq. destruct (H q Hq) as (Hv & Hs & Hc).
  now apply check_file_trace.
Qed.

Lemma remove_permissions_trace (P : event -> Prop) fault directory users exclude_spec fs :
  (forall q, In q (walk_files fs directory) ->
     P (Visit q) /\
     (excluded exclude_spec q = true -> P (Skip q)) /\
     (excluded exclude_spec q = false -> forall b, P (Check q b)) /\
     (excluded exclude_spec q = false -> P (Printed (Plain (RemovingPermissions users q))))) ->
  (forall lvl m, P (Logged lvl m)) ->
  Forall P (out_trace (remove_permissions fault directory users exclude_spec fs)).
Proof.
  intros H Hl. rewrite remove_permissions_flat. apply for_each_trace.
  intros acc q fs' Hq. destruct (H q Hq) as (Hv & Hs & Hc & Hp).
  now apply remove_file_trace.
Qed.

(** Whatever the audit returns was appended by an iteration over a file of
    the walk that evaluated the check to true. *)
Lemma check_permissions_returned fault directory users exclude_spec fs l p :
  out_val (check_permissions fault directory users exclude_spec fs) = inl l ->
  In p l ->
  In p (walk_files fs directory) /\
  selected fault users exclude_spec p = true /\
  In p (visited (out_trace (check_permissions fault directory users exclude_spec fs))) /\
  In p (scanned (out_trace (check_permissions fault directory users exclude_spec fs))).
Proof.
  rewrite check_permissions_flat. intros Hv Hp.
  pose (I := fun (acc : list string) (t : list event) =>
               forall p, In p acc ->
                 In p (walk_files fs directory) /\
                 selected fault users exclude_spec p = true /\
                 In p (visited t) /\ In p (scanned t)).
  assert (HI : I l ([] ++ out_trace (for_each (walk_files fs directory)
                                      (check_file fault users exclude_spec) [] fs))).
  { apply for_each_invariant; [| intros ? [] | exact Hv].
    intros acc t q fs' acc' Hq Hacc Hval r Hr.
    rewrite visited_app, scanned_app, !in_app_iff.
    destruct (check_file_value _ _ _ _ _ _ _ Hval) as [->|(-> & Hsel & Ht)].
    - destruct (Hacc r Hr) as (? & ? & ? & ?). auto.
    - apply in_app_iff in Hr. destruct Hr as [Hr|[<-|[]]].
      + destruct (Hacc r Hr) as (? & ? & ? & ?). auto.
      + rewrite Ht. simpl. repeat split; auto. }
  exact (HI p Hp).
Qed.

(** ** Runs that go through *)




Lemma rprint_with_traces (P : event -> Prop) rich t text :
  (forall shown, P (Printed (BlueFile shown))) ->
  (forall shown, P (Printed (RedDirectoryNotFound shown))) ->
  traces P (rprint_with rich t text).
Proof.
  intros Hb Hr fs. unfold rprint_with.
  destruct (rich t text); [|constructor]. destruct t; simpl; auto.
Qed.

Lemma rprint_with_preserves rich t text : preserves (rprint_with rich t text).
Proof. intro fs. unfold rprint_with. now destruct (rich t text). Qed.

#[local] Hint Resolve rprint_with_preserves : frame.












(** ** Nothing is skipped without an exclusion spec *)
Lemma traces_bind_ret {A B : Type} (P : event -> Prop) (a : A) (k : A -> M B) :
  traces P (k a) -> traces P (bind (ret a) k).
Proof. intros H fs. rewrite bind_ret_l. apply H. Qed.

Lemma check_permissions_no_skip fault directory users :
  traces (fun ev => skipped [ev] = []) (check_permissions fault directory users None).
Proof.
  intro fs. apply check_permissions_trace; [|reflexivity].
  intros q _. repeat split; try reflexivity. discriminate.
Qed.

Lemma remove_permissions_no_skip fault directory users :
  traces (fun ev => skipped [ev] = []) (remove_permissions fault directory users None).
Proof.
  intro fs. apply remove_permissions_trace; [|reflexivity].
  intros q _. repeat split; try reflexivity. discriminate.
Qed.

Lemma main_no_skip from_lines fault rich a :
  given (arg_exclude a) = None ->
  traces (fun ev => skipped [ev] = []) (main from_lines fault rich a).
Proof.
  intro H. unfold main. rewrite H.
  unfold add_file_handler, load_users, read_lines, os_path_isdir, sys_exit, rprint.
  repeat first
    [ progress intros
    | match goal with
      | |- traces _ (check_permissions _ _ _ None) => apply check_permissions_no_skip
      | |- traces _ (remove_permissions _ _ _ None) => apply remove_permissions_no_skip
      | |- traces _ (bind (ret _) _) => apply traces_bind_ret
      | |- traces _ (rprint_with _ _ _) => apply rprint_with_traces
      | |- traces _ (if ?b then _ else _) => destruct b
      | |- traces _ (match ?x with _ => _ end) => destruct x
      end
    | apply traces_bind
    | apply traces_try_except
    | apply traces_for_each
    | apply traces_ret
    | apply traces_raise
    | apply traces_get_fs
    | apply traces_logging
    | apply traces_emit
    | reflexivity ].
Qed.

(** ** The order of the walk *)
Lemma walk_unfold (top name : string) (entries : list node) :
  walk top (Dir name true entries) =
  (top, dirnames entries, filenames entries) ::
  flat_map (fun c => match c with
                     | Dir cname _ _ => walk (PosixPath.join top cname) c
                     | _ => []
                     end) entries.
Proof. reflexivity. Qed.

Lemma walk_reaches top n dpath dentries :
  reaches top n dpath dentries ->
  exists pre post,
    flat_map item_paths (walk top n) =
    pre ++ map (PosixPath.join dpath) (filenames dentries) ++ post.
Proof.
  induction 1 as [top name entries
                 | top name entries cname cl centries dpath dentries Hin _ IH].
  - rewrite walk_unfold. exists [].
    eexists. simpl. reflexivity.
  - destruct IH as (pre & post & E).
    destruct (in_split _ _ Hin) as (l1 & l2 & ->).
    rewrite walk_unfold. cbn [flat_map].
    rewrite flat_map_app. cbn [flat_map]. rewrite !flat_map_app, E.
    set (here := item_paths _). set (before := flat_map item_paths _).
    set (after := flat_map item_paths _).
    exists (here ++ before ++ pre), (post ++ after).
    now rewrite <- !app_assoc.
Qed.

Lemma errors_only_no_fault : errors_only no_fault.
Proof. intros p e H. discriminate H. Defined.

Lemma errors_only_flaky (bad : string) (e : exn) :
  is_Exception e = true -> errors_only (flaky bad e).
Proof.
  intros He p e' H. unfold flaky in H.
  destruct (String.eqb p bad); [|discriminate H].
  injection H as <-. exact He.
Defined.

(** * The claims *)

(** ** C1 *)

(** C1, as stated, fails.  On the sample tree with the revoked identity
    "alice", [remove_permissions] announces a removal for
    [/srv/b_alice.txt], whose grants are alice's ownership and a read grant
    of bob; afterwards the file still has both, so the targeted grant was
    not removed. *)
Lemma remove_permissions_keeps_targeted_grant :
  ~ removes_exactly_targeted no_fault sample_fs "/srv" ["alice"] None.
Proof.
  unfold removes_exactly_targeted. intro H.
  specialize (H "/srv/b_alice.txt"). vm_compute in H.
  discriminate (H (or_introl eq_refl)).
Qed.

(** C1, amended.  For every file targeted in remediation mode, the
    remediation operation leaves every grant on that file unchanged,
    targeted or not: the removal is a placeholder that announces the
    removal and changes nothing.  Running it a second time repeats the
    first run, with the same announcements and the same result, instead of
    a not-found outcome. *)
Theorem remove_permissions_changes_no_grant fault fs directory users exclude_spec :
  let o := remove_permissions fault directory users exclude_spec fs in
  out_fs o = fs /\
  (forall p, grants_at (out_fs o) directory p = grants_at fs directory p) /\
  remove_permissions fault directory users exclude_spec (out_fs o) = o.
Proof.
  intro o. assert (E : out_fs o = fs) by apply remove_permissions_preserves.
  rewrite E. auto.
Qed.

(** ** C2 *)

(** C2, as stated, fails.  With the revoked identity "ALICE" the audit of
    the sample tree reports [/srv/Malice/notes.txt], whose only grant
    belongs to bob: the identity occurs, in another letter case, inside the
    name of the directory. *)
Lemma check_permissions_matches_unrelated_path :
  ~ matches_only_principals no_fault sample_fs "/srv" ["ALICE"] None.
Proof.
  intro H.
  destruct (H ["/srv/b_alice.txt"; "/srv/Malice/notes.txt"] "/srv/Malice/notes.txt")
    as (g & Hg & Hu).
  - reflexivity.
  - simpl. auto.
  - vm_compute in Hg. destruct Hg as [<-|[]].
    simpl in Hu. destruct Hu as [Hu|[]]. discriminate Hu.
Qed.

(** C2, amended.  For every identity list and every file path, the entry is
    matched exactly when the lower-case form of some identity occurs as a
    substring of the lower-case form of the path of the file, directories
    included.  An identity that differs only in letter case, or that occurs
    as a substring of an unrelated path, does produce a match; the
    principals of the entry are not consulted.  Every path the audit
    returns passed this test. *)
Theorem placeholder_check_is_substring_match fault fs directory users exclude_spec filepath :
  (placeholder_check users filepath = true <->
   exists user pre post,
     In user users /\
     PyStr.lower filepath = (pre ++ PyStr.lower user ++ post)%string) /\
  match out_val (check_permissions fault directory users exclude_spec fs) with
  | inl l => forall p, In p l -> placeholder_check users p = true
  | inr _ => True
  end.
Proof.
  split.
  - unfold placeholder_check. rewrite existsb_exists. split.
    + intros (user & Hin & Hc). apply contains_split in Hc.
      destruct Hc as (pre & post & E). now exists user, pre, post.
    + intros (user & pre & post & Hin & E). exists user. split; [exact Hin|].
      apply contains_split. now exists pre, post.
  - destruct (out_val _) as [l|e] eqn:E; [|exact I].
    intros p Hin.
    destruct (check_permissions_returned _ _ _ _ _ _ _ E Hin) as (_ & Hsel & _).
    unfold selected in Hsel. apply andb_true_iff in Hsel. destruct Hsel as [_ Hsel].
    now destruct (fault p).
Qed.

(** ** C3 *)



(** ** C4 *)

(** C4, as stated, fails in its last part.  The audit of the sample tree
    gives the same value and the same log records and output whether
    [/srv/x.tmp] is excluded or not, so nothing that a caller or the outside
    sees can be the number of excluded paths: the debug record of the skip
    is dropped by the level of the root logger and no count is kept. *)
Lemma excluded_total_not_reported :
  ~ exists total : (list string + exn) * list event -> nat,
      forall exclude_spec,
        total (report (check_permissions no_fault "/srv" ["alice"] exclude_spec sample_fs)) =
        List.length (skipped (out_trace
          (check_permissions no_fault "/srv" ["alice"] exclude_spec sample_fs))).
Proof.
  intros [total H].
  pose proof (H None) as H0. pose proof (H (Some [tmp_pattern])) as H1.
  vm_compute in H0, H1. rewrite H0 in H1. discriminate H1.
Qed.

(** C4, amended.  For every tree and every exclusion pattern set, a path
    matched by an exclusion pattern appears in neither the matched output
    nor the set of entries scanned for grants, in the audit and in the
    removal pass alike.  No total of excluded paths is kept. *)
Theorem excluded_path_never_scanned fault fs directory users spec p :
  Pathspec.match_file spec p = true ->
  let audit := check_permissions fault directory users (Some spec) fs in
  let removal := remove_permissions fault directory users (Some spec) fs in
  ~ In p (scanned (out_trace audit)) /\
  match out_val audit with inl l => ~ In p l | inr _ => True end /\
  ~ In p (scanned (out_trace removal)) /\
  ~ In p (acted_on (out_trace removal)).
Proof.
  intros Hm audit removal. apply excluded_of_match in Hm.
  assert (Hq : forall q, excluded (Some spec) q = false -> p <> q) by congruence.
  repeat split.
  - apply scanned_not_in. apply check_permissions_trace; [|intros ? ? []].
    intros q _. split; [intros [] | split; [intros _ [] |]].
    intros Hx b [E|[]]. exact (Hq q Hx (eq_sym E)).
  - destruct (out_val audit) as [l|e] eqn:E; [|exact I].
    intro Hin. destruct (check_permissions_returned _ _ _ _ _ _ _ E Hin) as (_ & Hsel & _).
    unfold selected in Hsel. rewrite Hm in Hsel. discriminate Hsel.
  - apply scanned_not_in. apply remove_permissions_trace; [|intros ? ? []].
    intros q _. split; [intros [] | split; [intros _ [] | split; [|intros _ []]]].
    intros Hx b [E|[]]. exact (Hq q Hx (eq_sym E)).
  - apply acted_on_not_in. apply remove_permissions_trace; [|intros ? ? []].
    intros q _. split; [intros [] | split; [intros _ [] | split; [intros _ _ []|]]].
    intros Hx [E|[]]. exact (Hq q Hx (eq_sym E)).
Qed.

Lemma excluded_path_never_scanned_witness :
  ~ In "/srv/x.tmp"
      (scanned (out_trace (check_permissions no_fault "/srv" ["tmp"] (Some [tmp_pattern])
                             sample_fs))) /\
  ~ In "/srv/x.tmp"
      (acted_on (out_trace (remove_permissions no_fault "/srv" ["tmp"] (Some [tmp_pattern])
                              sample_fs))).
Proof.
  pose proof (excluded_path_never_scanned no_fault sample_fs "/srv" ["tmp"] [tmp_pattern]
                "/srv/x.tmp" eq_refl) as (H1 & _ & _ & H4).
  exact (conj H1 H4).
Defined.

(** ** C5 *)

(** C5.  When no exclusion pattern file is supplied, [main] passes no spec
    to the passes; the exclusion test is then false for every path and no
    iteration of the audit, of the removal or of a whole run of [main]
    takes the [continue] of the exclusion test. *)
Theorem no_exclude_file_nothing_skipped from_lines fault rich fs a directory users :
  given (arg_exclude a) = None ->
  (forall p, excluded None p = false) /\
  skipped (out_trace (check_permissions fault directory users None fs)) = [] /\
  skipped (out_trace (remove_permissions fault directory users None fs)) = [] /\
  skipped (out_trace (main from_lines fault rich a fs)) = [].
Proof.
  intro H. repeat split.
  - apply skipped_none. apply check_permissions_no_skip.
  - apply skipped_none. apply remove_permissions_no_skip.
  - apply skipped_none. now apply main_no_skip.
Qed.

Lemma no_exclude_file_nothing_skipped_witness :
  skipped (out_trace (main sample_from_lines no_fault sample_rich (sample_args "/srv" false None)
                        sample_fs)) = [] /\
  skipped (out_trace (main sample_from_lines no_fault sample_rich (sample_args "/srv" true (Some ""))
                        sample_fs)) = [].
Proof.
  split.
  - exact (proj2 (proj2 (proj2
      (no_exclude_file_nothing_skipped sample_from_lines no_fault sample_rich sample_fs
         (sample_args "/srv" false None) "/srv" [] eq_refl)))).
  - exact (proj2 (proj2 (proj2
      (no_exclude_file_nothing_skipped sample_from_lines no_fault sample_rich sample_fs
         (sample_args "/srv" true (Some "")) "/srv" [] eq_refl)))).
Defined.

(** ** C6 *)

(** C6.  For every identity list and every tree, every path in the list
    the audit returns is a file of the walk of the tree, for which an
    iteration was started and the check was evaluated. *)
Theorem matched_within_walk fault fs directory users exclude_spec l p :
  out_val (check_permissions fault directory users exclude_spec fs) = inl l ->
  In p l ->
  In p (walk_files fs directory) /\
  In p (visited (out_trace (check_permissions fault directory users exclude_spec fs))) /\
  In p (scanned (out_trace (check_permissions fault directory users exclude_spec fs))).
Proof.
  intros Hv Hp.
  destruct (check_permissions_returned _ _ _ _ _ _ _ Hv Hp) as (? & _ & ? & ?). auto.
Qed.

Lemma matched_within_walk_witness :
  In "/srv/Malice/notes.txt" (walk_files sample_fs "/srv") /\
  In "/srv/Malice/notes.txt"
    (visited (out_trace (check_permissions no_fault "/srv" ["ALICE"] None sample_fs))) /\
  In "/srv/Malice/notes.txt"
    (scanned (out_trace (check_permissions no_fault "/srv" ["ALICE"] None sample_fs))).
Proof.
  apply (matched_within_walk no_fault sample_fs "/srv" ["ALICE"] None
           ["/srv/b_alice.txt"; "/srv/Malice/notes.txt"]).
  - reflexivity.
  - simpl. auto.
Defined.

(** ** C7 *)

(** C7.  If the target root does not exist or is not a directory, [main]
    ends with an exception before the walk: no file is visited, checked or
    acted on, and without [--log-file] the filesystem is as before. *)
Theorem invalid_root_fails_fast from_lines fault rich a fs :
  not_a_directory fs (arg_directory a) = true ->
  let run := main from_lines fault rich a fs in
  (exists e, out_val run = inr e) /\
  visited (out_trace run) = [] /\
  scanned (out_trace run) = [] /\
  acted_on (out_trace run) = [] /\
  (given (arg_log_file a) = None -> out_fs run = fs).
Proof.
  intros H run.
  assert (Hs : setup_error fs a = true).
  { unfold setup_error. rewrite H. now rewrite !orb_true_r. }
  destruct (main_setup_error_aborts from_lines fault rich a fs Hs) as (He & Ht & Hf).
  apply setup_trace_quiet in Ht. tauto.
Qed.

(** A root that is missing and a root that is a regular file both end the
    run with [sys.exit(1)]. *)
Lemma invalid_root_fails_fast_witness :
  out_val (main sample_from_lines no_fault sample_rich (sample_args "/nowhere" true None) sample_fs)
    = inr (SystemExit 1) /\
  visited (out_trace (main sample_from_lines no_fault sample_rich (sample_args "/srv/a.txt" false None)
                        sample_fs)) = [].
Proof.
  split.
  - reflexivity.
  - exact (proj1 (proj2
      (invalid_root_fails_fast sample_from_lines no_fault sample_rich
         (sample_args "/srv/a.txt" false None) sample_fs eq_refl))).
Defined.

(** ** C8 *)

(** C8, as stated, fails.  A directory whose listing comes back as [b.txt],
    [a.txt] is visited in that order, which is not sorted by name. *)
Lemma walk_order_not_name_sorted :
  ~ name_sorted (visited (out_trace (check_permissions no_fault "/d" [] None unsorted_fs))).
Proof.
  unfold name_sorted. intro H.
  change (visited (out_trace (check_permissions no_fault "/d" [] None unsorted_fs)))
    with ["/d/b.txt"; "/d/a.txt"] in H.
  inversion H as [|? ? _ Hd]; subst.
  inversion Hd as [|? ? Hle]; subst.
  discriminate Hle.
Qed.

(** C8, amended.  For every directory reached by the walk, its files are
    visited one after the other in the order in which the directory listing
    returned them; the code does not sort.  The audit returns the matches
    in the order of the visits, so two traversals of a tree whose listings
    come back in the same order visit and report in the same order. *)
Theorem children_visited_in_listing_order fault fs directory users exclude_spec
    n dpath dentries :
  errors_only fault ->
  assoc directory (mounts fs) = Some n ->
  reaches directory n dpath dentries ->
  let audit := check_permissions fault directory users exclude_spec fs in
  let removal := remove_permissions fault directory users exclude_spec fs in
  (exists pre post,
     visited (out_trace audit) =
       pre ++ map (PosixPath.join dpath) (filenames dentries) ++ post /\
     visited (out_trace removal) =
       pre ++ map (PosixPath.join dpath) (filenames dentries) ++ post) /\
  out_val audit =
    inl (filter (selected fault users exclude_spec) (visited (out_trace audit))).
Proof.
  intros Hf Hn Hr audit removal. subst audit removal.
  rewrite check_permissions_total, remove_permissions_total by exact Hf. simpl.
  rewrite visited_audit, visited_removal.
  split; [|reflexivity].
  destruct (walk_reaches _ _ _ _ Hr) as (pre & post & E).
  exists pre, post. unfold walk_files, walk_items. rewrite Hn. auto.
Qed.

Lemma children_visited_in_listing_order_witness :
  exists pre post,
    visited (out_trace (check_permissions no_fault "/srv" ["alice"] None sample_fs)) =
      pre ++ map (PosixPath.join "/srv/Malice") (filenames [File "notes.txt" [bob_read]])
          ++ post.
Proof.
  destruct (children_visited_in_listing_order no_fault sample_fs "/srv" ["alice"] None
              (Dir "srv" true sample_entries) "/srv/Malice" [File "notes.txt" [bob_read]]
              errors_only_no_fault eq_refl
              (reaches_below "/srv" "srv" sample_entries "Malice" true
                 [File "notes.txt" [bob_read]] "/srv/Malice" [File "notes.txt" [bob_read]]
                 (or_intror (or_intror (or_introl eq_refl)))
                 (reaches_here "/srv/Malice" "Malice" [File "notes.txt" [bob_read]])))
    as ((pre & post & H & _) & _).
  exists pre, post. exact H.
Defined.

(** ** C9 *)



(** ** C10 *)

(** C10.  When the environment raises only errors, the files for which the
    removal pass announces a removal are exactly the files the audit pass
    returns, in the same order. *)
Theorem passes_select_same_files fault fs directory users exclude_spec :
  errors_only fault ->
  exists l,
    out_val (check_permissions fault directory users exclude_spec fs) = inl l /\
    acted_on (out_trace (remove_permissions fault directory users exclude_spec fs)) = l /\
    (forall p,
       In p (acted_on (out_trace (remove_permissions fault directory users exclude_spec fs)))
       <-> In p l).
Proof.
  intro Hf. rewrite check_permissions_total, remove_permissions_total by exact Hf. simpl.
  rewrite acted_on_removal. eexists. repeat split; auto.
Qed.

Lemma passes_select_same_files_witness :
  exists l,
    out_val (check_permissions (flaky "/srv/b_alice.txt" OSError) "/srv" ["ALICE"]
               (Some [tmp_pattern]) sample_fs) = inl l /\
    acted_on (out_trace (remove_permissions (flaky "/srv/b_alice.txt" OSError) "/srv"
                           ["ALICE"] (Some [tmp_pattern]) sample_fs)) = l.
Proof.
  destruct (passes_select_same_files (flaky "/srv/b_alice.txt" OSError) sample_fs "/srv"
              ["ALICE"] (Some [tmp_pattern])
              (errors_only_flaky "/srv/b_alice.txt" OSError eq_refl))
    as (l & H1 & H2 & _).
  exists l. exact (conj H1 H2).
Defined.

(** * Further properties of main.py *)

(** ** More on strings *)
Lemma lower_char_idempotent (c : ascii) :
  PyStr.lower_char (PyStr.lower_char c) = PyStr.lower_char c.
Proof. destruct c as [[] [] [] [] [] [] [] []]; reflexivity. Qed.

Lemma lower_idempotent (s : string) : PyStr.lower (PyStr.lower s) = PyStr.lower s.
Proof.
  induction s as [|c s IH]; simpl; [reflexivity|].
  now rewrite lower_char_idempotent, IH.
Qed.

Lemma lower_app (a b : string) :
  PyStr.lower (a ++ b) = (PyStr.lower a ++ PyStr.lower b)%string.
Proof. induction a as [|c a IH]; simpl; [reflexivity | now rewrite IH]. Qed.

Lemma string_app_assoc (a b c : string) : ((a ++ b) ++ c = a ++ b ++ c)%string.
Proof. induction a as [|x a IH]; simpl; [reflexivity | now rewrite IH]. Qed.

Lemma contains_empty (s : string) : PyStr.contains "" s = true.
Proof. now destruct s. Qed.

Lemma contains_app_l (sub a b : string) :
  PyStr.contains sub a = true -> PyStr.contains sub (a ++ b) = true.
Proof.
  intro H. apply contains_split in H. destruct H as (pre & post & ->).
  apply contains_split. exists pre, (post ++ b)%string.
  now rewrite !string_app_assoc.
Qed.

Lemma rstrip_keeps_head (c : ascii) (t : string) :
  PyStr.isspace c = false -> exists t', PyStr.rstrip (String c t) = String c t'.
Proof.
  intro H. simpl. destruct (PyStr.rstrip t).
  - rewrite H. now exists EmptyString.
  - eexists. reflexivity.
Qed.

Lemma lstrip_head (s : string) :
  match PyStr.lstrip s with
  | EmptyString => True
  | String c _ => PyStr.isspace c = false
  end.
Proof.
  induction s as [|c s IH]; simpl; [exact I|].
  destruct (PyStr.isspace c) eqn:E; [exact IH | exact E].
Qed.

Lemma strip_head (s : string) :
  match PyStr.strip s with
  | EmptyString => True
  | String c _ => PyStr.isspace c = false
  end.
Proof.
  unfold PyStr.strip. pose proof (lstrip_head s) as H.
  destruct (PyStr.lstrip s) as [|c t]; [exact I|].
  destruct (rstrip_keeps_head c t H) as [t' ->]. exact H.
Qed.

Lemma lstrip_fixed (s : string) :
  match s with EmptyString => True | String c _ => PyStr.isspace c = false end ->
  PyStr.lstrip s = s.
Proof. destruct s as [|c t]; simpl; [reflexivity|]. now intros ->. Qed.

Lemma rstrip_idempotent (s : string) : PyStr.rstrip (PyStr.rstrip s) = PyStr.rstrip s.
Proof.
  induction s as [|c s IH]; simpl; [reflexivity|].
  destruct (PyStr.rstrip s) as [|d r] eqn:E.
  - destruct (PyStr.isspace c) eqn:Ec; simpl; [reflexivity | now rewrite Ec].
  - change (PyStr.rstrip (String c (String d r)))
      with (match PyStr.rstrip (String d r) with
            | EmptyString =>
                if PyStr.isspace c then EmptyString else String c EmptyString
            | t' => String c t'
            end).
    now rewrite IH.
Qed.

Lemma strip_idempotent (s : string) : PyStr.strip (PyStr.strip s) = PyStr.strip s.
Proof.
  unfold PyStr.strip at 1. rewrite (lstrip_fixed _ (strip_head s)).
  unfold PyStr.strip. apply rstrip_idempotent.
Qed.

Lemma join_extends (a b : string) :
  PyStr.startswith "/" b = false -> exists rest, PosixPath.join a b = (a ++ rest)%string.
Proof.
  intro H. unfold PosixPath.join. change (String PosixPath.sep EmptyString) with "/".
  rewrite H. destruct (_ || _); eexists; reflexivity.
Qed.

(** ** X1: the identities that [load_users] returns *)

(** X1.  When the user file can be read, [load_users] returns, in the order
    of the file, one identity per line that is not blank: no identity is
    empty, none begins with whitespace, stripping one again changes nothing,
    and there are at most as many identities as lines.  Nothing is logged
    and the filesystem is as before. *)
Theorem load_users_identities_clean fs user_file raw :
  assoc user_file (texts fs) = Some (Lines raw) ->
  load_users user_file fs = Outcome fs [] (inl (stripped_lines raw)) /\
  List.length (stripped_lines raw) <= List.length raw /\
  forall u, In u (stripped_lines raw) ->
    PyStr.truthy u = true /\
    PyStr.strip u = u /\
    match u with EmptyString => True | String c _ => PyStr.isspace c = false end.
Proof.
  intro H. split; [|split].
  - unfold load_users, try_except, bind, read_lines, bind, get_fs, ret. simpl.
    rewrite H. reflexivity.
  - unfold stripped_lines. rewrite length_map. apply filter_length_le.
  - intros u Hu. unfold stripped_lines in Hu. apply in_map_iff in Hu.
    destruct Hu as (line & <- & Hl). apply filter_In in Hl. destruct Hl as [_ Ht].
    repeat split.
    + exact Ht.
    + apply strip_idempotent.
    + apply strip_head.
Qed.

Lemma load_users_identities_clean_witness :
  load_users "users.txt" sample_fs = Outcome sample_fs [] (inl ["alice"; "bob"]).
Proof.
  exact (proj1 (load_users_identities_clean sample_fs "users.txt"
                  ["alice"; ""; "  bob  "] eq_refl)).
Defined.

(** ** X2: the failures of [load_users] *)

(** X2.  When the user file cannot be read as lines, [load_users] raises
    and returns nothing: a missing file gives [FileNotFoundError] after one
    ERROR record "User file not found", any other [OSError] is re-raised
    after one ERROR record "Error reading user file", and a decoding error
    passes through with no record at all.  The filesystem is as before. *)
Theorem load_users_failures fs user_file :
  readable_text fs user_file = false ->
  load_users user_file fs =
  match assoc user_file (texts fs) with
  | None =>
      Outcome fs [Logged ERROR (UserFileNotFound user_file)] (inr FileNotFoundError)
  | Some Unreadable =>
      Outcome fs [Logged ERROR (ErrorReadingUserFile user_file OSError)] (inr OSError)
  | _ => Outcome fs [] (inr ValueError)
  end.
Proof.
  unfold readable_text. intro H.
  unfold load_users, try_except, bind, read_lines, bind, get_fs, ret. simpl.
  destruct (assoc user_file (texts fs)) as [[raw| |]|]; try discriminate H; reflexivity.
Qed.

Lemma load_users_failures_witness :
  load_users "secret.txt" sample_fs =
    Outcome sample_fs [Logged ERROR (ErrorReadingUserFile "secret.txt" OSError)] (inr OSError) /\
  load_users "nowhere.txt" sample_fs =
    Outcome sample_fs [Logged ERROR (UserFileNotFound "nowhere.txt")] (inr FileNotFoundError).
Proof.
  split.
  - exact (load_users_failures sample_fs "secret.txt" eq_refl).
  - exact (load_users_failures sample_fs "nowhere.txt" eq_refl).
Defined.

(** ** X3: [load_excludes] and the pattern compiler *)

(** X3.  When the exclude file can be read, [load_excludes] hands to the
    pattern compiler exactly the stripped lines that are not blank and
    returns what it compiles.  An exception of the compiler is raised on:
    one of class [IOError] after an ERROR record, as the handlers written
    for the file do, any other without a record. *)
Theorem load_excludes_compiles_stripped_lines from_lines fs exclude_file raw :
  assoc exclude_file (texts fs) = Some (Lines raw) ->
  load_excludes from_lines exclude_file fs =
  match from_lines (stripped_lines raw) with
  | inl spec => Outcome fs [] (inl spec)
  | inr e =>
      if is_FileNotFoundError e
      then Outcome fs [Logged ERROR (ExcludeFileNotFound exclude_file)] (inr e)
      else if is_IOError e
      then Outcome fs [Logged ERROR (ErrorReadingExcludeFile exclude_file e)] (inr e)
      else Outcome fs [] (inr e)
  end.
Proof.
  intro H.
  unfold load_excludes, try_except, bind, read_lines, bind, get_fs, ret. simpl.
  rewrite H. simpl.
  destruct (from_lines (stripped_lines raw)) as [spec|e]; [reflexivity|].
  destruct e; reflexivity.
Qed.

Lemma load_excludes_compiles_stripped_lines_witness :
  load_excludes sample_from_lines "excludes.txt" sample_fs =
  Outcome sample_fs [] (inl [tmp_pattern]).
Proof.
  exact (load_excludes_compiles_stripped_lines sample_from_lines sample_fs
           "excludes.txt" ["*.tmp"] eq_refl).
Defined.

(** ** More on lists, entries and traces *)
Lemma filter_filter {A : Type} (f g : A -> bool) (l : list A) :
  filter f (filter g l) = filter (fun x => g x && f x) l.
Proof.
  induction l as [|x l IH]; simpl; [reflexivity|].
  destruct (g x); simpl; [destruct (f x); now rewrite IH | exact IH].
Qed.

Lemma acted_on_none (t : list event) :
  Forall (fun ev => acted_on [ev] = []) t -> acted_on t = [].
Proof.
  induction 1 as [|ev t Hev _ IH]; [reflexivity|].
  change (ev :: t) with ([ev] ++ t). now rewrite acted_on_app, Hev, IH.
Qed.

Lemma node_nested_ind (P : node -> Prop) :
  (forall name grants, P (File name grants)) ->
  (forall name, P (DirLink name)) ->
  (forall name listable entries, Forall P entries -> P (Dir name listable entries)) ->
  forall n, P n.
Proof.
  intros HF HL HD. fix IH 1. intros [name grants|name|name listable entries].
  - apply HF.
  - apply HL.
  - apply HD. induction entries as [|e es IHes]; constructor.
    + apply IH.
    + exact IHes.
Qed.

Lemma walk_paths_extend (n : node) :
  forall top, children_well_named n = true ->
    Forall (fun p => exists rest, p = (top ++ rest)%string)
      (flat_map item_paths (walk top n)).
Proof.
  induction n as [name grants|name|name listable entries IH] using node_nested_ind;
    intros top Hw; try constructor.
  destruct listable; [|constructor].
  simpl in Hw. rewrite forallb_forall in Hw. rewrite Forall_forall in IH.
  rewrite walk_unfold. cbn [flat_map]. apply Forall_app. split.
  - apply Forall_forall. intros p Hp. unfold item_paths in Hp.
    apply in_map_iff in Hp. destruct Hp as (name' & <- & Hn).
    unfold filenames in Hn. apply in_map_iff in Hn. destruct Hn as (c & <- & Hc).
    apply filter_In in Hc. destruct Hc as [Hc _].
    apply Hw in Hc. destruct c; simpl in Hc; apply andb_true_iff in Hc;
      destruct Hc as [Hc _]; apply negb_true_iff in Hc; now apply join_extends.
  - apply Forall_forall. intros p Hp.
    apply in_flat_map in Hp. destruct Hp as (item & Hitem & Hp).
    apply in_flat_map in Hitem. destruct Hitem as (c & Hc & Hitem).
    destruct c as [cname g|cname|cname cl ces]; try contradiction.
    pose proof (Hw _ Hc) as Hwc. simpl in Hwc. apply andb_true_iff in Hwc.
    destruct Hwc as [Hname Hces]. apply negb_true_iff in Hname.
    destruct (join_extends top cname Hname) as [rest0 E].
    pose proof (IH _ Hc (PosixPath.join top cname) Hces) as Hall.
    rewrite Forall_forall in Hall.
    destruct (Hall p) as [rest Hrest].
    { apply in_flat_map. now exists item. }
    exists (rest0 ++ rest)%string. now rewrite Hrest, E, string_app_assoc.
Qed.

Lemma walk_files_under_directory fs directory n p :
  assoc directory (mounts fs) = Some n ->
  children_well_named n = true ->
  In p (walk_files fs directory) ->
  exists rest, p = (directory ++ rest)%string.
Proof.
  intros Hn Hw Hp. unfold walk_files, walk_items in Hp. rewrite Hn in Hp.
  pose proof (walk_paths_extend n directory Hw) as Hall.
  rewrite Forall_forall in Hall. now apply Hall.
Qed.

Lemma placeholder_check_incl users users' p :
  incl users users' ->
  placeholder_check users p = true -> placeholder_check users' p = true.
Proof.
  unfold placeholder_check. rewrite !existsb_exists.
  intros Hi (u & Hu & Hc). exists u. split; [now apply Hi | exact Hc].
Qed.

Lemma placeholder_check_same users users' p :
  (forall u, In u users <-> In u users') ->
  placeholder_check users p = placeholder_check users' p.
Proof.
  intro H.
  destruct (placeholder_check users p) eqn:E1, (placeholder_check users' p) eqn:E2;
    try reflexivity.
  - rewrite (placeholder_check_incl users users' p) in E2; [discriminate|intros u; apply H|exact E1].
  - rewrite (placeholder_check_incl users' users p) in E1; [discriminate|intros u; apply H|exact E2].
Qed.

Lemma remove_file_trace_checked (P : event -> Prop) fault users exclude_spec u q :
  P (Visit q) ->
  (excluded exclude_spec q = true -> P (Skip q)) ->
  (excluded exclude_spec q = false -> fault q = None ->
     P (Check q (placeholder_check users q))) ->
  (excluded exclude_spec q = false -> fault q = None ->
     placeholder_check users q = true ->
     P (Printed (Plain (RemovingPermissions users q)))) ->
  (forall lvl m, P (Logged lvl m)) ->
  traces P (remove_file fault users exclude_spec u q).
Proof.
  intros Hv Hs Hc Hp Hl. unfold remove_file, evaluate_check, print.
  destruct (excluded exclude_spec q); [traces; auto|].
  destruct (fault q) as [e|].
  - intro fs. unfold try_except, bind, raise, logging, emit. simpl.
    destruct (is_Exception e); simpl; repeat constructor; auto.
  - specialize (Hc eq_refl eq_refl). specialize (Hp eq_refl eq_refl).
    destruct (placeholder_check users q); intro fs;
      unfold try_except, bind, logging, emit, ret; simpl; repeat constructor; auto.
Qed.

(** ** X4: no identities *)

(** X4.  With an empty identity list the audit, when it returns, returns
    the empty list, and the removal pass announces no removal, whatever the
    tree, the exclusions and the exceptions of the environment. *)
Theorem no_identities_nothing_reported fault fs directory exclude_spec :
  match out_val (check_permissions fault directory [] exclude_spec fs) with
  | inl l => l = []
  | inr _ => True
  end /\
  acted_on (out_trace (remove_permissions fault directory [] exclude_spec fs)) = [].
Proof.
  split.
  - destruct (out_val _) as [[|p l]|e] eqn:E; auto.
    destruct (check_permissions_returned _ _ _ _ _ _ _ E (or_introl eq_refl))
      as (_ & Hsel & _).
    unfold selected in Hsel. simpl in Hsel.
    destruct (fault p); now rewrite andb_false_r in Hsel.
  - apply acted_on_none. rewrite remove_permissions_flat. apply for_each_trace.
    intros u q fs' _. apply remove_file_trace_checked; try reflexivity.
    discriminate.
Qed.

(** ** X5: the empty identity *)

(** X5.  An empty string among the identities matches every path: when the
    environment raises only errors, the audit then returns every file of
    the walk that is not excluded and on which nothing was raised.  (The
    identities of [load_users] are never empty, see X1.) *)
Theorem empty_identity_matches_everything fault fs directory users exclude_spec :
  errors_only fault ->
  In "" users ->
  (forall p, placeholder_check users p = true) /\
  out_val (check_permissions fault directory users exclude_spec fs) =
  inl (filter (fun p => negb (excluded exclude_spec p) &&
                        match fault p with Some _ => false | None => true end)
         (walk_files fs directory)).
Proof.
  intros Hf Hin.
  assert (Hall : forall p, placeholder_check users p = true).
  { intro p. unfold placeholder_check. apply existsb_exists.
    exists "". split; [exact Hin | apply contains_empty]. }
  split; [exact Hall|].
  rewrite check_permissions_total by exact Hf. simpl. f_equal.
  apply filter_ext. intro p. unfold selected. rewrite Hall. now destruct (fault p).
Qed.

Lemma empty_identity_matches_everything_witness :
  out_val (check_permissions no_fault "/srv" ["zed"; ""] (Some [tmp_pattern]) sample_fs) =
  inl ["/srv/b_alice.txt"; "/srv/a.txt"; "/srv/Malice/notes.txt"].
Proof.
  exact (proj2 (empty_identity_matches_everything no_fault sample_fs "/srv" ["zed"; ""]
                  (Some [tmp_pattern]) errors_only_no_fault (or_intror (or_introl eq_refl)))).
Defined.

(** ** X6, X7: the identity list as a set *)

(** X6.  The audit is monotone in the identities: when the environment
    raises only errors, every path returned for a list of identities is
    returned for any list that contains them. *)
Theorem audit_monotone_in_identities fault fs directory users users' exclude_spec :
  errors_only fault ->
  incl users users' ->
  exists l l',
    out_val (check_permissions fault directory users exclude_spec fs) = inl l /\
    out_val (check_permissions fault directory users' exclude_spec fs) = inl l' /\
    incl l l'.
Proof.
  intros Hf Hi. rewrite !check_permissions_total by exact Hf. simpl.
  do 2 eexists. repeat split.
  intros p Hp. apply filter_In in Hp. destruct Hp as [Hw Hs]. apply filter_In.
  split; [exact Hw|]. unfold selected in *.
  apply andb_true_iff in Hs. destruct Hs as [Hx Hc]. rewrite Hx. simpl.
  destruct (fault p); [discriminate|]. now apply (placeholder_check_incl users).
Qed.

Lemma audit_monotone_in_identities_witness :
  exists l l',
    out_val (check_permissions no_fault "/srv" ["tmp"] None sample_fs) = inl l /\
    out_val (check_permissions no_fault "/srv" ["alice"; "tmp"] None sample_fs) = inl l' /\
    incl l l'.
Proof.
  apply (audit_monotone_in_identities no_fault sample_fs "/srv" ["tmp"] ["alice"; "tmp"] None
           errors_only_no_fault).
  intros u [<-|[]]. simpl. auto.
Defined.

(** X7.  Order and repetition of the identities do not matter: when the
    environment raises only errors, two lists with the same elements give
    the same audit, value and trace alike. *)
Theorem audit_ignores_order_and_duplicates fault fs directory users users' exclude_spec :
  errors_only fault ->
  (forall u, In u users <-> In u users') ->
  check_permissions fault directory users exclude_spec fs =
  check_permissions fault directory users' exclude_spec fs.
Proof.
  intros Hf H. rewrite !check_permissions_total by exact Hf. f_equal.
  - apply flat_map_ext. intro p. unfold audit_trace.
    now rewrite (placeholder_check_same users users' p H).
  - f_equal. apply filter_ext. intro p. unfold selected.
    now rewrite (placeholder_check_same users users' p H).
Qed.

Lemma audit_ignores_order_and_duplicates_witness :
  check_permissions no_fault "/srv" ["tmp"; "alice"; "tmp"] None sample_fs =
  check_permissions no_fault "/srv" ["alice"; "tmp"] None sample_fs.
Proof.
  apply (audit_ignores_order_and_duplicates no_fault sample_fs "/srv"
           ["tmp"; "alice"; "tmp"] ["alice"; "tmp"] None errors_only_no_fault).
  intro u. simpl. tauto.
Defined.

(** ** X8: exclusion as a filter *)

(** X8.  Excluding is filtering: when the environment raises only errors,
    the audit with an exclusion spec returns the list of the audit without
    one, less the paths that the exclusion test rejects, in the same
    order. *)
Theorem exclusion_filters_audit fault fs directory users exclude_spec :
  errors_only fault ->
  exists l0,
    out_val (check_permissions fault directory users None fs) = inl l0 /\
    out_val (check_permissions fault directory users exclude_spec fs) =
      inl (filter (fun p => negb (excluded exclude_spec p)) l0).
Proof.
  intro Hf. rewrite !check_permissions_total by exact Hf. simpl.
  eexists. split; [reflexivity|]. f_equal. rewrite filter_filter.
  apply filter_ext. intro p. unfold selected. simpl. apply andb_comm.
Qed.

Lemma exclusion_filters_audit_witness :
  exists l0,
    out_val (check_permissions no_fault "/srv" ["tmp"; "alice"] None sample_fs) = inl l0 /\
    out_val (check_permissions no_fault "/srv" ["tmp"; "alice"] (Some [tmp_pattern]) sample_fs) =
      inl (filter (fun p => negb (excluded (Some [tmp_pattern]) p)) l0).
Proof.
  exact (exclusion_filters_audit no_fault sample_fs "/srv" ["tmp"; "alice"]
           (Some [tmp_pattern]) errors_only_no_fault).
Defined.

(** ** X9, X10: the directory argument is part of every path *)

(** X9.  In a tree whose entry names do not begin with a slash, every path
    the audit returns begins with the directory argument as it was given. *)
Theorem reported_paths_extend_directory fault fs directory users exclude_spec n l p :
  assoc directory (mounts fs) = Some n ->
  children_well_named n = true ->
  out_val (check_permissions fault directory users exclude_spec fs) = inl l ->
  In p l ->
  exists rest, p = (directory ++ rest)%string.
Proof.
  intros Hn Hw Hv Hp.
  destruct (check_permissions_returned _ _ _ _ _ _ _ Hv Hp) as (Hin & _).
  now apply (walk_files_under_directory fs directory n).
Qed.

Lemma reported_paths_extend_directory_witness :
  exists rest, "/srv/Malice/notes.txt" = ("/srv" ++ rest)%string.
Proof.
  apply (reported_paths_extend_directory no_fault sample_fs "/srv" ["alice"] None
           (Dir "srv" true sample_entries)
           ["/srv/b_alice.txt"; "/srv/Malice/notes.txt"] "/srv/Malice/notes.txt").
  - reflexivity.
  - reflexivity.
  - reflexivity.
  - simpl. auto.
Defined.

(** X10.  The check looks at the whole path, the directory argument
    included: when an identity occurs, in any letter case, in the directory
    argument itself, the audit returns every file of the walk that is not
    excluded and on which nothing was raised. *)
Theorem identity_in_directory_matches_all fault fs directory users exclude_spec n u :
  errors_only fault ->
  assoc directory (mounts fs) = Some n ->
  children_well_named n = true ->
  In u users ->
  PyStr.contains (PyStr.lower u) (PyStr.lower directory) = true ->
  out_val (check_permissions fault directory users exclude_spec fs) =
  inl (filter (fun p => negb (excluded exclude_spec p) &&
                        match fault p with Some _ => false | None => true end)
         (walk_files fs directory)).
Proof.
  intros Hf Hn Hw Hu Hc.
  rewrite check_permissions_total by exact Hf. simpl. f_equal.
  apply filter_ext_in. intros p Hp.
  destruct (walk_files_under_directory fs directory n p Hn Hw Hp) as [rest ->].
  unfold selected. destruct (fault _); [reflexivity|]. f_equal.
  unfold placeholder_check. apply existsb_exists. exists u. split; [exact Hu|].
  rewrite lower_app. now apply contains_app_l.
Qed.

Lemma identity_in_directory_matches_all_witness :
  out_val (check_permissions no_fault "/srv" ["RV"] None sample_fs) =
  inl ["/srv/b_alice.txt"; "/srv/a.txt"; "/srv/x.tmp"; "/srv/Malice/notes.txt"].
Proof.
  exact (identity_in_directory_matches_all no_fault sample_fs "/srv" ["RV"] None
           (Dir "srv" true sample_entries) "RV"
           errors_only_no_fault eq_refl eq_refl (or_introl eq_refl) eq_refl).
Defined.

(** ** X11: letter case of the identities *)
Lemma placeholder_check_lowered (users : list string) (p : string) :
  placeholder_check (map PyStr.lower users) p = placeholder_check users p.
Proof.
  unfold placeholder_check. induction users as [|u users IH]; simpl; [reflexivity|].
  now rewrite lower_idempotent, IH.
Qed.

(** X11.  Lower-casing the identities beforehand changes nothing: when the
    environment raises only errors, the audit of the lower-cased list is
    the audit of the list, value and trace alike. *)
Theorem audit_ignores_identity_case fault fs directory users exclude_spec :
  errors_only fault ->
  check_permissions fault directory (map PyStr.lower users) exclude_spec fs =
  check_permissions fault directory users exclude_spec fs.
Proof.
  intro Hf. rewrite !check_permissions_total by exact Hf. f_equal.
  - apply flat_map_ext. intro p. unfold audit_trace.
    now rewrite placeholder_check_lowered.
  - f_equal. apply filter_ext. intro p. unfold selected.
    now rewrite placeholder_check_lowered.
Qed.

Lemma audit_ignores_identity_case_witness :
  check_permissions no_fault "/srv" (map PyStr.lower ["ALICE"; "Tmp"]) None sample_fs =
  check_permissions no_fault "/srv" ["ALICE"; "Tmp"] None sample_fs.
Proof.
  exact (audit_ignores_identity_case no_fault sample_fs "/srv" ["ALICE"; "Tmp"] None
           errors_only_no_fault).
Defined.

(** ** Exact runs of [main] *)
Lemma yields_bind {A B : Type} (m : M A) (k : A -> M B) fs t1 t2 a b :
  yields m fs t1 a -> yields (k a) fs t2 b -> yields (bind m k) fs (t1 ++ t2) b.
Proof. unfold yields, bind. intros -> . simpl. now intros ->. Qed.

Lemma bind_raises_first {A B : Type} (m : M A) (k : A -> M B) fs t e :
  m fs = Outcome fs t (inr e) -> bind m k fs = Outcome fs t (inr e).
Proof. unfold bind. now intros ->. Qed.

Lemma bind_raises_then {A B : Type} (m : M A) (k : A -> M B) fs t1 t2 a e :
  yields m fs t1 a -> k a fs = Outcome fs t2 (inr e) ->
  bind m k fs = Outcome fs (t1 ++ t2) (inr e).
Proof. unfold yields, bind. intros ->. simpl. now intros ->. Qed.

Lemma flat_map_single {A B : Type} (f : A -> B) (l : list A) :
  flat_map (fun x => [f x]) l = map f l.
Proof. induction l as [|x l IH]; simpl; [reflexivity | now rewrite IH]. Qed.

Lemma log_part_yields a fs :
  log_ready fs a = true ->
  yields
    match given (arg_log_file a) with
    | Some log_file => add_file_handler log_file ;; logging INFO (LoggingToFile log_file)
    | None => ret tt
    end%prog fs (log_events a) tt.
Proof.
  unfold log_ready, log_events.
  destruct (given (arg_log_file a)) as [log_file|]; intro H; [|reflexivity].
  apply negb_true_iff in H.
  unfold yields, add_file_handler, bind, get_fs, ret. simpl. now rewrite H.
Qed.

Lemma users_part_yields a fs raw :
  assoc (arg_users a) (texts fs) = Some (Lines raw) ->
  yields
    (try_except
       (users <- load_users (arg_users a) ;;
        logging INFO (LoadedUsers (arg_users a) users) ;;
        ret users)
       is_IOError
       (fun e =>
          if is_FileNotFoundError e
          then rprint RedUserFileNotFound ;; sys_exit 1
          else rprint RedUserFileUnreadable ;; sys_exit 1))%prog
    fs [Logged INFO (LoadedUsers (arg_users a) (stripped_lines raw))] (stripped_lines raw).
Proof.
  intro H.
  unfold yields, try_except, load_users, try_except, bind, read_lines, bind, get_fs, ret.
  simpl. now rewrite H.
Qed.

Lemma exclude_part_yields from_lines exclude_file fs raw spec :
  assoc exclude_file (texts fs) = Some (Lines raw) ->
  from_lines (stripped_lines raw) = inl spec ->
  yields
    (try_except
       (spec <- load_excludes from_lines exclude_file ;;
        logging INFO (LoadedExcludes exclude_file) ;;
        ret (Some spec))
       is_IOError
       (fun e =>
          if is_FileNotFoundError e
          then rprint RedExcludeFileNotFound ;; sys_exit 1
          else rprint RedExcludeFileUnreadable ;; sys_exit 1))%prog
    fs [Logged INFO (LoadedExcludes exclude_file)] (Some spec).
Proof.
  intros H Hc.
  unfold yields, try_except, load_excludes, try_except, bind, read_lines, bind, get_fs, ret.
  simpl. rewrite H. simpl. now rewrite Hc.
Qed.

Lemma listing_yields rich (files : list string) fs :
  rendered_verbatim rich files ->
  yields
    match files with
    | _ :: _ =>
        rprint RedFilesFollow ;;
        for_each files (fun _ file => rprint_with rich InBlue file) tt
    | [] => rprint GreenNoFiles
    end%prog fs (listing files) tt.
Proof.
  intro Hv. destruct files as [|f files]; [reflexivity|].
  unfold listing. change (Printed RedFilesFollow :: ?l) with ([Printed RedFilesFollow] ++ l).
  eapply yields_bind; [reflexivity|].
  unfold yields.
  rewrite (for_each_total (fun file => [Printed (BlueFile file)]) (fun _ _ => tt)).
  - rewrite flat_map_single. now destruct (fold_left _ _ _).
  - intros u x fs' Hx. unfold rprint_with. now rewrite (Hv x Hx).
Qed.

Lemma run_part_yields fault rich a users exclude_spec fs :
  errors_only fault ->
  isdir fs (arg_directory a) = true ->
  (arg_remove a = false ->
   rendered_verbatim rich
     (filter (selected fault users exclude_spec) (walk_files fs (arg_directory a)))) ->
  yields
    (isdir <- os_path_isdir (arg_directory a) ;;
     if negb isdir then
       rprint_with rich InRedDirectoryNotFound (arg_directory a) ;;
       logging ERROR (DirectoryNotFound (arg_directory a)) ;;
       sys_exit 1
     else if arg_remove a then
       rprint YellowRemoving ;;
       remove_permissions fault (arg_directory a) users exclude_spec ;;
       rprint GreenRemovalCompleted ;;
       logging INFO RemovalCompleted
     else
       rprint YellowChecking ;;
       files_with_permissions <- check_permissions fault (arg_directory a) users exclude_spec ;;
       match files_with_permissions with
       | _ :: _ =>
           rprint RedFilesFollow ;;
           for_each files_with_permissions (fun _ file => rprint_with rich InBlue file) tt
       | [] => rprint GreenNoFiles
       end ;;
       logging INFO CheckCompleted)%prog
    fs
    (if arg_remove a then
       [Printed YellowRemoving] ++
       flat_map (removal_trace fault users exclude_spec) (walk_files fs (arg_directory a)) ++
       [Printed GreenRemovalCompleted] ++ [Logged INFO RemovalCompleted]
     else
       [Printed YellowChecking] ++
       flat_map (audit_trace fault users exclude_spec) (walk_files fs (arg_directory a)) ++
       listing (filter (selected fault users exclude_spec)
                  (walk_files fs (arg_directory a))) ++
       [Logged INFO CheckCompleted])
    tt.
Proof.
  intros Hf Hd Hv.
  change (yields ?m fs ?t tt) with (yields m fs ([] ++ t) tt).
  apply yields_bind with (a := true).
  { unfold yields, os_path_isdir, bind, get_fs, ret. simpl. now rewrite Hd. }
  simpl negb. cbv iota. destruct (arg_remove a).
  - eapply yields_bind; [reflexivity|].
    eapply yields_bind; [unfold yields; now apply remove_permissions_total|].
    eapply yields_bind; reflexivity.
  - eapply yields_bind; [reflexivity|].
    eapply yields_bind; [unfold yields; now apply check_permissions_total|].
    eapply yields_bind; [apply listing_yields; now apply Hv | reflexivity].
Qed.

(** A run with a sound setup, event for event. *)
Lemma main_yields from_lines fault rich a fs :
  errors_only fault ->
  run_ready from_lines fs a = true ->
  (arg_remove a = false ->
   rendered_verbatim rich
     (filter (selected fault (loaded_users fs a) (loaded_spec from_lines fs a))
        (walk_files fs (arg_directory a)))) ->
  yields (main from_lines fault rich a) fs
    (setup_events fs a ++
     if arg_remove a then
       [Printed YellowRemoving] ++
       flat_map (removal_trace fault (loaded_users fs a) (loaded_spec from_lines fs a))
         (walk_files fs (arg_directory a)) ++
       [Printed GreenRemovalCompleted] ++ [Logged INFO RemovalCompleted]
     else
       [Printed YellowChecking] ++
       flat_map (audit_trace fault (loaded_users fs a) (loaded_spec from_lines fs a))
         (walk_files fs (arg_directory a)) ++
       listing (filter (selected fault (loaded_users fs a) (loaded_spec from_lines fs a))
                  (walk_files fs (arg_directory a))) ++
       [Logged INFO CheckCompleted])
    tt.
Proof.
  intros Hf H Hv. unfold run_ready in H.
  apply andb_true_iff in H. destruct H as [H Hd].
  apply andb_true_iff in H. destruct H as [H Hx].
  apply andb_true_iff in H. destruct H as [Hl Hu].
  unfold readable_text in Hu. revert Hv.
  unfold setup_events, loaded_users, loaded_spec, exclude_events, main.
  destruct (assoc (arg_users a) (texts fs)) as [[raw| |]|] eqn:Eu; try discriminate.
  destruct (given (arg_exclude a)) as [exclude_file|].
  - destruct (assoc exclude_file (texts fs)) as [[xraw| |]|] eqn:Ex; try discriminate.
    destruct (from_lines (stripped_lines xraw)) as [spec|e] eqn:Ec; try discriminate.
    intro Hv. rewrite <- !app_assoc.
    eapply yields_bind; [now apply log_part_yields|].
    eapply yields_bind; [now apply users_part_yields|].
    eapply yields_bind; [now apply (exclude_part_yields _ _ _ xraw spec)|].
    now apply run_part_yields.
  - intro Hv. rewrite <- !app_assoc.
    eapply yields_bind; [now apply log_part_yields|].
    eapply yields_bind; [now apply users_part_yields|].
    change (@nil event ++ ?t) with ([] ++ t).
    eapply yields_bind; [reflexivity|].
    now apply run_part_yields.
Qed.

(** ** More on readers *)
Lemma listed_app (t1 t2 : list event) : listed (t1 ++ t2) = listed t1 ++ listed t2.
Proof.
  induction t1 as [|ev t1 IH]; simpl; [reflexivity|].
  destruct ev as [lvl m|c|p|p|p b]; simpl; try now rewrite IH.
  destruct c; simpl; now rewrite IH.
Qed.

Lemma listed_none (t : list event) :
  Forall (fun ev => forall c, ev <> Printed c) t -> listed t = [].
Proof.
  induction 1 as [|ev t Hev _ IH]; [reflexivity|].
  destruct ev as [lvl m|c|p|p|p b]; simpl; try exact IH.
  now destruct (Hev c).
Qed.

Lemma acted_on_unprinted (t : list event) :
  Forall (fun ev => forall c, ev <> Printed c) t -> acted_on t = [].
Proof.
  induction 1 as [|ev t Hev _ IH]; [reflexivity|].
  destruct ev as [lvl m|c|p|p|p b]; simpl; try exact IH.
  now destruct (Hev c).
Qed.

Lemma listed_listing (files : list string) : listed (listing files) = files.
Proof.
  destruct files as [|f files]; [reflexivity|].
  unfold listing. simpl. f_equal.
  induction files as [|g files IH]; simpl; [reflexivity | now rewrite IH].
Qed.

Lemma setup_events_unprinted fs a :
  Forall (fun ev => forall c, ev <> Printed c) (setup_events fs a).
Proof.
  unfold setup_events, log_events, exclude_events.
  destruct (given (arg_log_file a)), (given (arg_exclude a)); simpl;
    repeat constructor; discriminate.
Qed.

Lemma audit_trace_unprinted fault users exclude_spec (l : list string) :
  Forall (fun ev => forall c, ev <> Printed c)
    (flat_map (audit_trace fault users exclude_spec) l).
Proof.
  induction l as [|p l IH]; simpl; [constructor|].
  constructor; [discriminate|]. apply Forall_app. split; [|exact IH].
  destruct (excluded exclude_spec p); [repeat constructor; discriminate|].
  destruct (fault p); [repeat constructor; discriminate|].
  destruct (placeholder_check users p); repeat constructor; discriminate.
Qed.

(** ** X12: what an audit run prints *)

(** X12.  In a run of [main] without [--remove] and without [--log-file],
    with a sound setup, an environment that raises only errors, and
    selected files that rich writes as they are: the run returns, lists
    exactly the files that the audit of the loaded identities and patterns
    selects, each once and in the order of the walk, and says that no files
    were found exactly when that list is empty. *)
Theorem main_lists_exactly_the_matches from_lines fault rich a fs :
  errors_only fault ->
  given (arg_log_file a) = None ->
  run_ready from_lines fs a = true ->
  arg_remove a = false ->
  rendered_verbatim rich
    (filter (selected fault (loaded_users fs a) (loaded_spec from_lines fs a))
       (walk_files fs (arg_directory a))) ->
  let run := main from_lines fault rich a fs in
  let matches :=
    filter (selected fault (loaded_users fs a) (loaded_spec from_lines fs a))
      (walk_files fs (arg_directory a)) in
  out_val run = inl tt /\
  listed (out_trace run) = matches /\
  (In (Printed GreenNoFiles) (out_trace run) <-> matches = []).
Proof.
  intros Hf _ Hr Ha Hv run matches. subst run.
  rewrite (main_yields from_lines fault rich a fs Hf Hr (fun _ => Hv)). rewrite Ha.
  cbn [out_val out_trace]. fold matches. split; [reflexivity|]. split.
  - rewrite !listed_app.
    rewrite (listed_none _ (setup_events_unprinted fs a)).
    rewrite (listed_none _ (audit_trace_unprinted _ _ _ _)).
    rewrite listed_listing. simpl. apply app_nil_r.
  - rewrite !in_app_iff. split.
    + intros [H|[H|[H|[H|H]]]].
      * pose proof (setup_events_unprinted fs a) as Hs. rewrite Forall_forall in Hs.
        now destruct (Hs _ H GreenNoFiles).
      * destruct H as [H|[]]. discriminate H.
      * pose proof (audit_trace_unprinted fault (loaded_users fs a)
                      (loaded_spec from_lines fs a) (walk_files fs (arg_directory a)))
          as Hs.
        rewrite Forall_forall in Hs. now destruct (Hs _ H GreenNoFiles).
      * destruct matches as [|f l]; [reflexivity|].
        destruct H as [H|H]; [discriminate H|].
        apply in_map_iff in H. destruct H as (? & H & _). discriminate H.
      * destruct H as [H|[]]. discriminate H.
    + intros ->. right. right. right. left. simpl. auto.
Qed.

Lemma sample_matches_verbatim :
  rendered_verbatim sample_rich ["/srv/b_alice.txt"; "/srv/Malice/notes.txt"].
Proof. intros file [<-|[<-|[]]]; reflexivity. Defined.

Lemma main_lists_exactly_the_matches_witness :
  listed (out_trace (main sample_from_lines no_fault sample_rich
                       (sample_args "/srv" false (Some "excludes.txt")) sample_fs)) =
  ["/srv/b_alice.txt"; "/srv/Malice/notes.txt"].
Proof.
  exact (proj1 (proj2
    (main_lists_exactly_the_matches sample_from_lines no_fault sample_rich
       (sample_args "/srv" false (Some "excludes.txt")) sample_fs
       errors_only_no_fault eq_refl eq_refl eq_refl sample_matches_verbatim))).
Defined.

(** ** X13: the two modes agree *)

(** X13.  For a command line without [--log-file], with a sound setup, an
    environment that raises only errors, and selected files that rich
    writes as they are: the run with [--remove] announces a removal for
    exactly the files, in the same order, that the run without [--remove]
    lists. *)
Theorem remove_mode_announces_what_audit_lists from_lines fault rich a fs :
  errors_only fault ->
  given (arg_log_file a) = None ->
  run_ready from_lines fs a = true ->
  rendered_verbatim rich
    (filter (selected fault (loaded_users fs a) (loaded_spec from_lines fs a))
       (walk_files fs (arg_directory a))) ->
  acted_on (out_trace (main from_lines fault rich (with_remove true a) fs)) =
  listed (out_trace (main from_lines fault rich (with_remove false a) fs)).
Proof.
  intros Hf _ Hr Hv.
  assert (Ht : arg_remove (with_remove true a) = false ->
               rendered_verbatim rich
                 (filter (selected fault (loaded_users fs (with_remove true a))
                            (loaded_spec from_lines fs (with_remove true a)))
                    (walk_files fs (arg_directory (with_remove true a)))))
    by discriminate.
  rewrite (main_yields from_lines fault rich (with_remove true a) fs Hf Hr Ht).
  rewrite (main_yields from_lines fault rich (with_remove false a) fs Hf Hr (fun _ => Hv)).
  cbn [arg_remove with_remove out_trace].
  rewrite !acted_on_app, !listed_app.
  rewrite (acted_on_unprinted _ (setup_events_unprinted fs _)).
  rewrite (listed_none _ (setup_events_unprinted fs _)).
  rewrite (listed_none _ (audit_trace_unprinted _ _ _ _)).
  rewrite acted_on_removal, listed_listing. simpl. now rewrite !app_nil_r.
Qed.

Lemma remove_mode_announces_what_audit_lists_witness :
  acted_on (out_trace (main sample_from_lines no_fault sample_rich
              (with_remove true (sample_args "/srv" false (Some "excludes.txt"))) sample_fs)) =
  listed (out_trace (main sample_from_lines no_fault sample_rich
            (with_remove false (sample_args "/srv" false (Some "excludes.txt"))) sample_fs)).
Proof.
  exact (remove_mode_announces_what_audit_lists sample_from_lines no_fault sample_rich
           (sample_args "/srv" false (Some "excludes.txt")) sample_fs
           errors_only_no_fault eq_refl eq_refl sample_matches_verbatim).
Defined.

(** ** X14: audit mode announces nothing *)
Lemma check_permissions_no_announcement fault directory users exclude_spec :
  traces (fun ev => acted_on [ev] = [])
    (check_permissions fault directory users exclude_spec).
Proof.
  intro fs. apply check_permissions_trace; [|reflexivity].
  intros q _. repeat split; reflexivity.
Qed.

(** X14.  Without [--remove], a run of [main] never announces a removal,
    whatever the setup, the tree and the exceptions of the environment. *)
Theorem audit_mode_never_announces_removal from_lines fault rich a fs :
  arg_remove a = false ->
  acted_on (out_trace (main from_lines fault rich a fs)) = [].
Proof.
  intro H. apply acted_on_none. revert fs.
  change (traces (fun ev => acted_on [ev] = []) (main from_lines fault rich a)).
  unfold main. rewrite H. cbv iota.
  unfold add_file_handler, load_users, load_excludes, read_lines, os_path_isdir,
    sys_exit, rprint.
  repeat first
    [ progress intros
    | match goal with
      | |- traces _ (check_permissions _ _ _ _) => apply check_permissions_no_announcement
      | |- traces _ (rprint_with _ _ _) => apply rprint_with_traces
      | |- traces _ (if ?b then _ else _) => destruct b
      | |- traces _ (match ?x with _ => _ end) => destruct x
      end
    | apply traces_bind
    | apply traces_try_except
    | apply traces_for_each
    | apply traces_ret
    | apply traces_raise
    | apply traces_get_fs
    | apply traces_logging
    | apply traces_emit
    | reflexivity ].
Qed.

Lemma audit_mode_never_announces_removal_witness :
  acted_on (out_trace (main sample_from_lines (flaky "/srv/a.txt" KeyboardInterrupt) sample_rich
                         (sample_args "/srv" false (Some "excludes.txt")) sample_fs)) = [].
Proof.
  exact (audit_mode_never_announces_removal sample_from_lines
           (flaky "/srv/a.txt" KeyboardInterrupt) sample_rich
           (sample_args "/srv" false (Some "excludes.txt")) sample_fs eq_refl).
Defined.

(** ** X15: a user file that cannot be read *)

(** X15.  In a run of [main] without [--log-file], when the user file
    cannot be read as lines, [main] stops there, before it looks at the
    exclude file or at the root: a missing file and any other [OSError] end
    the run with [sys.exit(1)] after the ERROR record of [load_users] and
    the red message; a decoding error leaves [main] as it is, with no
    record and no message. *)
Theorem main_user_file_failures from_lines fault rich a fs :
  given (arg_log_file a) = None ->
  readable_text fs (arg_users a) = false ->
  main from_lines fault rich a fs =
  match assoc (arg_users a) (texts fs) with
  | None =>
      Outcome fs
        [Logged ERROR (UserFileNotFound (arg_users a)); Printed RedUserFileNotFound]
        (inr (SystemExit 1))
  | Some Unreadable =>
      Outcome fs
        [Logged ERROR (ErrorReadingUserFile (arg_users a) OSError);
         Printed RedUserFileUnreadable]
        (inr (SystemExit 1))
  | _ => Outcome fs [] (inr ValueError)
  end.
Proof.
  intros Hg Hu. unfold readable_text in Hu. unfold main. rewrite Hg.
  rewrite bind_ret_l.
  destruct (assoc (arg_users a) (texts fs)) as [[raw| |]|] eqn:E; try discriminate Hu;
    apply bind_raises_first;
    unfold try_except, load_users, try_except, bind, read_lines, bind, get_fs, ret;
    simpl; now rewrite E.
Qed.

Lemma main_user_file_failures_witness :
  main sample_from_lines no_fault sample_rich
    {| arg_directory := "/nowhere"; arg_users := "secret.txt"; arg_remove := true;
       arg_log_file := None; arg_exclude := Some "missing.txt" |} sample_fs =
  Outcome sample_fs
    [Logged ERROR (ErrorReadingUserFile "secret.txt" OSError);
     Printed RedUserFileUnreadable]
    (inr (SystemExit 1)).
Proof.
  exact (main_user_file_failures sample_from_lines no_fault sample_rich
           {| arg_directory := "/nowhere"; arg_users := "secret.txt"; arg_remove := true;
              arg_log_file := None; arg_exclude := Some "missing.txt" |}
           sample_fs eq_refl eq_refl).
Defined.

(** ** X16: DEBUG records *)
Lemma traces_logging_level (P : event -> Prop) (lvl : level) (m : message) :
  (Nat.leb (level_no root_level) (level_no lvl) = true -> P (Logged lvl m)) ->
  traces P (logging lvl m).
Proof.
  intro H. unfold logging. destruct (Nat.leb _ _); [|apply traces_ret].
  apply traces_emit. now apply H.
Qed.

Ltac no_debug :=
  repeat first
    [ progress intros
    | match goal with
      | |- traces _ (if ?b then _ else _) => destruct b
      | |- traces _ (match ?x with _ => _ end) => destruct x
      end
    | apply traces_bind
    | apply traces_try_except
    | apply traces_for_each
    | apply traces_ret
    | apply traces_raise
    | apply traces_get_fs
    | apply traces_logging_level
    | apply traces_emit
    | discriminate
    | congruence ].

Lemma check_permissions_no_debug fault directory users exclude_spec :
  traces (fun ev => forall m, ev <> Logged DEBUG m)
    (check_permissions fault directory users exclude_spec).
Proof.
  unfold check_permissions, os_walk, check_file, evaluate_check. no_debug.
Qed.

Lemma remove_permissions_no_debug fault directory users exclude_spec :
  traces (fun ev => forall m, ev <> Logged DEBUG m)
    (remove_permissions fault directory users exclude_spec).
Proof.
  unfold remove_permissions, os_walk, remove_file, evaluate_check, print. no_debug.
Qed.

(** X16.  No DEBUG record is ever emitted: the root logger is set to INFO,
    so "Skipping excluded path" reaches no handler, the file handler of
    [--log-file] included, in the passes and in every run of [main]. *)
Theorem no_debug_record_is_emitted from_lines fault rich a directory users exclude_spec fs :
  Forall (fun ev => forall m, ev <> Logged DEBUG m)
    (out_trace (check_permissions fault directory users exclude_spec fs)) /\
  Forall (fun ev => forall m, ev <> Logged DEBUG m)
    (out_trace (remove_permissions fault directory users exclude_spec fs)) /\
  Forall (fun ev => forall m, ev <> Logged DEBUG m)
    (out_trace (main from_lines fault rich a fs)).
Proof.
  split; [apply check_permissions_no_debug|].
  split; [apply remove_permissions_no_debug|].
  revert fs.
  change (traces (fun ev => forall m, ev <> Logged DEBUG m) (main from_lines fault rich a)).
  unfold main, add_file_handler, load_users, load_excludes, read_lines, os_path_isdir,
    sys_exit, rprint.
  repeat first
    [ progress intros
    | match goal with
      | |- traces _ (check_permissions _ _ _ _) => apply check_permissions_no_debug
      | |- traces _ (remove_permissions _ _ _ _) => apply remove_permissions_no_debug
      | |- traces _ (rprint_with _ _ _) => apply rprint_with_traces
      | |- traces _ (if ?b then _ else _) => destruct b
      | |- traces _ (match ?x with _ => _ end) => destruct x
      end
    | apply traces_bind
    | apply traces_try_except
    | apply traces_for_each
    | apply traces_ret
    | apply traces_raise
    | apply traces_get_fs
    | apply traces_logging_level
    | apply traces_emit
    | discriminate
    | congruence ].
Qed.

(** ** X17: [main] and the filesystem *)

(** X17.  Without [--log-file], a run of [main] leaves the filesystem as it
    found it, in audit mode and with [--remove] alike, whatever the setup
    and the exceptions of the environment. *)
Theorem main_keeps_filesystem from_lines fault rich a fs :
  given (arg_log_file a) = None ->
  out_fs (main from_lines fault rich a fs) = fs.
Proof.
  intros _. revert fs. change (preserves (main from_lines fault rich a)).
  unfold main.
  apply preserves_bind; [apply log_part_preserves|]. intros _.
  apply preserves_bind; [apply users_part_preserves|]. intros users.
  apply preserves_bind.
  { destruct (given (arg_exclude a)); [apply exclude_part_preserves | apply preserves_ret]. }
  intros exclude_spec.
  apply preserves_bind; [unfold os_path_isdir; frame|]. intros isdir.
  unfold rprint, sys_exit.
  destruct (negb isdir); [frame|].
  destruct (arg_remove a).
  - apply preserves_bind; [frame|]. intros _.
    apply preserves_bind; [apply remove_permissions_preserves|]. frame.
  - apply preserves_bind; [frame|]. intros _.
    apply preserves_bind; [apply check_permissions_preserves|]. frame.
Qed.

Lemma main_keeps_filesystem_witness :
  out_fs (main sample_from_lines no_fault sample_rich (sample_args "/srv" true (Some "excludes.txt"))
            sample_fs) = sample_fs.
Proof.
  exact (main_keeps_filesystem sample_from_lines no_fault sample_rich
           (sample_args "/srv" true (Some "excludes.txt")) sample_fs eq_refl).
Defined.

(** ** X18: an exclude file that cannot be read *)

(** X18.  In a run of [main] without [--log-file], when the user file was
    loaded and the exclude file named by [--exclude] cannot be read as
    lines, [main] stops after the record of the loaded identities and never
    looks at the root: a missing file and any other [OSError] end the run
    with [sys.exit(1)] after the ERROR record of [load_excludes] and the red
    message; a decoding error leaves [main] as it is. *)
Theorem main_exclude_file_failures from_lines fault rich a fs raw exclude_file :
  given (arg_log_file a) = None ->
  assoc (arg_users a) (texts fs) = Some (Lines raw) ->
  given (arg_exclude a) = Some exclude_file ->
  readable_text fs exclude_file = false ->
  main from_lines fault rich a fs =
  match assoc exclude_file (texts fs) with
  | None =>
      Outcome fs
        [Logged INFO (LoadedUsers (arg_users a) (stripped_lines raw));
         Logged ERROR (ExcludeFileNotFound exclude_file);
         Printed RedExcludeFileNotFound]
        (inr (SystemExit 1))
  | Some Unreadable =>
      Outcome fs
        [Logged INFO (LoadedUsers (arg_users a) (stripped_lines raw));
         Logged ERROR (ErrorReadingExcludeFile exclude_file OSError);
         Printed RedExcludeFileUnreadable]
        (inr (SystemExit 1))
  | _ =>
      Outcome fs
        [Logged INFO (LoadedUsers (arg_users a) (stripped_lines raw))]
        (inr ValueError)
  end.
Proof.
  intros Hl Hu Hg Hx. unfold readable_text in Hx. unfold main. rewrite Hg, Hl.
  rewrite bind_ret_l.
  assert (Husers := users_part_yields a fs raw Hu).
  destruct (assoc exclude_file (texts fs)) as [[xraw| |]|] eqn:E; try discriminate Hx;
    change (Logged INFO (LoadedUsers (arg_users a) (stripped_lines raw)) :: ?t)
      with ([Logged INFO (LoadedUsers (arg_users a) (stripped_lines raw))] ++ t);
    (eapply bind_raises_then; [exact Husers|]);
    apply bind_raises_first;
    unfold try_except, load_excludes, try_except, bind, read_lines, bind, get_fs, ret;
    simpl; now rewrite E.
Qed.

Lemma main_exclude_file_failures_witness :
  main sample_from_lines no_fault sample_rich
    (sample_args "/nowhere" true (Some "missing.txt")) sample_fs =
  Outcome sample_fs
    [Logged INFO (LoadedUsers "users.txt" ["alice"; "bob"]);
     Logged ERROR (ExcludeFileNotFound "missing.txt");
     Printed RedExcludeFileNotFound]
    (inr (SystemExit 1)).
Proof.
  exact (main_exclude_file_failures sample_from_lines no_fault sample_rich
           (sample_args "/nowhere" true (Some "missing.txt")) sample_fs
           ["alice"; ""; "  bob  "] "missing.txt" eq_refl eq_refl eq_refl eq_refl).
Defined.

(** ** X19: what the passes see of the tree *)
Lemma entry_name_skeleton (c : node) : entry_name (skeleton c) = entry_name c.
Proof. destruct c as [name g|name|name [] es]; reflexivity. Qed.

Lemma is_dir_skeleton (c : node) : is_dir (skeleton c) = is_dir c.
Proof. destruct c as [name g|name|name [] es]; reflexivity. Qed.

Lemma dirnames_skeleton (es : list node) : dirnames (map skeleton es) = dirnames es.
Proof.
  unfold dirnames. induction es as [|c es IH]; simpl; [reflexivity|].
  rewrite is_dir_skeleton. destruct (is_dir c); simpl; [|exact IH].
  now rewrite entry_name_skeleton, IH.
Qed.

Lemma filenames_skeleton (es : list node) : filenames (map skeleton es) = filenames es.
Proof.
  unfold filenames. induction es as [|c es IH]; simpl; [reflexivity|].
  rewrite is_dir_skeleton. destruct (is_dir c); simpl; [exact IH|].
  now rewrite entry_name_skeleton, IH.
Qed.

Lemma walk_skeleton (n : node) : forall top, walk top (skeleton n) = walk top n.
Proof.
  induction n as [name grants|name|name listable entries IH] using node_nested_ind;
    intro top; try reflexivity.
  destruct listable; [|reflexivity].
  change (skeleton (Dir name true entries)) with (Dir name true (map skeleton entries)).
  rewrite !walk_unfold, dirnames_skeleton, filenames_skeleton. f_equal.
  induction IH as [|c es Hc _ IHes]; simpl; [reflexivity|].
  rewrite IHes. f_equal.
  destruct c as [cname g|cname|cname [] ces]; try reflexivity.
  exact (Hc (PosixPath.join top cname)).
Qed.

Lemma assoc_mount_skeletons (fs : filesys) (k : string) :
  assoc k (mount_skeletons fs) = option_map skeleton (assoc k (mounts fs)).
Proof.
  unfold mount_skeletons. induction (mounts fs) as [|[k' n] l IH]; simpl; [reflexivity|].
  destruct (String.eqb k k'); [reflexivity | exact IH].
Qed.

Lemma walk_items_skeleton (fs fs' : filesys) (top : string) :
  mount_skeletons fs = mount_skeletons fs' ->
  walk_items fs top = walk_items fs' top.
Proof.
  intro H.
  assert (E : forall g, walk_items g top =
                        match assoc top (mount_skeletons g) with
                        | Some n => walk top n
                        | None => []
                        end).
  { intro g. unfold walk_items. rewrite assoc_mount_skeletons.
    destruct (assoc top (mounts g)); simpl; [now rewrite walk_skeleton | reflexivity]. }
  now rewrite !E, H.
Qed.

(** X19.  The passes see of the tree only the names of the entries that the
    walk can list.  When the environment raises only errors, two trees that
    differ in the grants of their files, or beneath a directory that cannot
    be listed, give the same audit and the same removal pass, value and
    trace alike: such a directory is passed over without any record. *)
Theorem passes_see_only_the_skeleton fault fs fs' directory users exclude_spec :
  errors_only fault ->
  mount_skeletons fs = mount_skeletons fs' ->
  let audit := check_permissions fault directory users exclude_spec in
  let removal := remove_permissions fault directory users exclude_spec in
  out_val (audit fs) = out_val (audit fs') /\
  out_trace (audit fs) = out_trace (audit fs') /\
  out_val (removal fs) = out_val (removal fs') /\
  out_trace (removal fs) = out_trace (removal fs').
Proof.
  intros Hf H audit removal. subst audit removal.
  rewrite !check_permissions_total, !remove_permissions_total by exact Hf.
  unfold walk_files. rewrite (walk_items_skeleton fs fs' directory H). simpl. auto.
Qed.

Lemma passes_see_only_the_skeleton_witness :
  out_val (check_permissions no_fault "/srv" ["alice"] None sample_fs) =
  out_val (check_permissions no_fault "/srv" ["alice"] None sample_fs_regranted) /\
  out_trace (check_permissions no_fault "/srv" ["alice"] None sample_fs) =
  out_trace (check_permissions no_fault "/srv" ["alice"] None sample_fs_regranted).
Proof.
  destruct (passes_see_only_the_skeleton no_fault sample_fs sample_fs_regranted "/srv"
              ["alice"] None errors_only_no_fault eq_refl) as (H1 & H2 & _).
  exact (conj H1 H2).
Defined.
